(** * cube.c: a rotating cube drawn with ASCII glyphs in a terminal

    A shallow embedding of [src/cube.c] and the properties of its rendering
    pipeline: rotation, perspective projection, depth-tested rasterization,
    frame composition, key handling and renderer construction.

    Numeric conventions of the embedding.
    - A C [float] or [double] is the real number ([R]) it stands for. Every
      arithmetic operation gives the exact result rounded to the type of the
      operation, binary32 for [float] and binary64 for [double], to nearest
      with ties to even (IEEE 754, each operation evaluated in its own type
      and rounded once): [to_float], [to_double] and the operators built on
      them. Promoting a [float] to [double] changes no value. Infinities,
      NaN and the sign of zero are outside the model: a property that
      depends on an operation not overflowing says so ([float_range]).
    - C [int] values are integers ([Z]); the conversion [(int)x] is
      truncation toward zero ([Ctrunc]), the conversion of an [int] to
      [double] is exact. Overflow of [int] is outside the model: a property
      that depends on a value fitting [int] says so ([int_value],
      [int_range]).
    - A C array is a list indexed from 0; a [const char*] that points to a
      string literal is [Some] of that literal and [NULL] is [None]. A
      string is the characters in front of the terminating NUL. *)

From Stdlib Require Import Reals Lra Lia ZArith String Ascii DecimalString.
From stdpp Require Import base list strings gmap.

#[local] Open Scope R_scope.
#[local] Set Warnings "-clear-no-such-hyp".

(** ** C conversions *)

(** [(int)x]: the fractional part is discarded (ISO C 6.3.1.4). *)
Definition Ctrunc (x : R) : Z :=
  if Rle_dec 0 x then Int_part x else (- Int_part (- x))%Z.

#[global] Instance R_inhabited : Inhabited R := populate 0.

(** ** Floating point *)

(** The integer nearest to [v]; of two equally near ones, the even one. *)
Definition round_half_even (v : R) : Z :=
  let f := Int_part v in
  let d := v - IZR f in
  if Rlt_dec d (1 / 2) then f
  else if Rlt_dec (1 / 2) d then (f + 1)%Z
  else if Z.even f then f else (f + 1)%Z.

Definition pow2 (e : Z) : R := powerRZ 2 e.

(** The binary exponent of [v <> 0]: [2^mag2 v <= |v| < 2^(mag2 v + 1)]. *)
Definition mag2 (v : R) : Z := Int_part (ln (Rabs v) / ln 2).

(** [v] rounded to the nearest number [m * 2^e] with [|m| < 2^prec] and
    [emin <= e], ties to the even [m]: the unit in the last place of [v] is
    [2^(mag2 v - prec + 1)], or [2^emin] where [v] is subnormal. *)
Definition round_float (prec emin : Z) (v : R) : R :=
  if Req_dec_T v 0 then 0 else
  let e := Z.max (mag2 v - prec + 1) emin in
  IZR (round_half_even (v / pow2 e)) * pow2 e.

(** binary32, the [float] of the source: 24 bits, least exponent -149. *)
Definition to_float : R -> R := round_float 24 (-149).
(** binary64, [double]: 53 bits, least exponent -1074. *)
Definition to_double : R -> R := round_float 53 (-1074).

(** [+], [-], [*] and [/] on two [float] operands. *)
Definition fadd (a b : R) : R := to_float (a + b).
Definition fsub (a b : R) : R := to_float (a - b).
Definition fmul (a b : R) : R := to_float (a * b).
Definition fdiv (a b : R) : R := to_float (a / b).

(** [+], [-] and [*] on two [double] operands. *)
Definition dadd (a b : R) : R := to_double (a + b).
Definition dsub (a b : R) : R := to_double (a - b).
Definition dmul (a b : R) : R := to_double (a * b).

Infix "⊕" := fadd (at level 50, left associativity).
Infix "⊖" := fsub (at level 50, left associativity).
Infix "⊗" := fmul (at level 40, left associativity).
Infix "⊘" := fdiv (at level 40, left associativity).
Infix "⊞" := dadd (at level 50, left associativity).
Infix "⊟" := dsub (at level 50, left associativity).
Infix "⊠" := dmul (at level 40, left associativity).

(** The functions of <math.h> the source calls, all on [double]. They
    belong to the C library, not to the repository: [sin] and [cos] are
    taken as the real functions rounded to [double]; at 0 that is what ISO C
    (F.10.1) prescribes, [sin 0 = 0] and [cos 0 = 1]. [fmin] and [fmax]
    return one of their arguments. *)
Module libm.
Definition sin (a : R) : R := to_double (Rtrigo_def.sin a).
Definition cos (a : R) : R := to_double (Rtrigo_def.cos a).
Definition fmin (a b : R) : R := Rmin a b.
Definition fmax (a b : R) : R := Rmax a b.
End libm.

(** ** Constants of the source *)

Definition DEFAULT_WIDTH : Z := 160.
Definition DEFAULT_HEIGHT : Z := 44.
Definition DEFAULT_CUBE_WIDTH : R := 20.
Definition DEFAULT_DISTANCE : R := 100.
Definition DEFAULT_K1 : R := 40.
(** [0.6f]: 0.6 is no binary32 number. *)
Definition DEFAULT_INCREMENT : R := to_float 0.6.
Definition MIN_CUBE_WIDTH : R := 5.
Definition MAX_CUBE_WIDTH : R := 50.

(** The escape character, written '\x1b' in the source. *)
Definition ESC : ascii := "027"%char.
(** The line feed, written '\n'. *)
Definition LF : ascii := "010"%char.

(** ** Data model *)

(** [buffer] holds the [width * height] glyph cells; the source keeps the
    scratch area of [render] behind them in the same allocation
    ([scratch_size]), which the embedding represents by the string [render]
    returns. *)
Record CubeRenderer := mkRenderer {
  A : R; B : R; C : R;
  cubeWidth : R;
  width : Z; height : Z;
  zBuffer : list R;
  buffer : list ascii;
  colorBuffer : list (option string);
  backgroundASCIICode : ascii;
  distanceFromCam : R;
  horizontalOffset : R;
  verticalOffset : R;
  K1 : R;
  incrementSpeed : R
}.

Record Point3D := mkPoint { x : R; y : R; z : R }.

(** Field updates, one per assignment form of the source. *)
Definition set_cell (r : CubeRenderer) (idx : nat) (ooz : R) (ch : ascii)
    (color : option string) : CubeRenderer :=
  mkRenderer (A r) (B r) (C r) (cubeWidth r) (width r) (height r)
    (<[idx := ooz]> (zBuffer r)) (<[idx := ch]> (buffer r))
    (<[idx := color]> (colorBuffer r))
    (backgroundASCIICode r) (distanceFromCam r) (horizontalOffset r)
    (verticalOffset r) (K1 r) (incrementSpeed r).

Definition set_cubeWidth (r : CubeRenderer) (w : R) : CubeRenderer :=
  mkRenderer (A r) (B r) (C r) w (width r) (height r)
    (zBuffer r) (buffer r) (colorBuffer r)
    (backgroundASCIICode r) (distanceFromCam r) (horizontalOffset r)
    (verticalOffset r) (K1 r) (incrementSpeed r).

Definition set_horizontalOffset (r : CubeRenderer) (h : R) : CubeRenderer :=
  mkRenderer (A r) (B r) (C r) (cubeWidth r) (width r) (height r)
    (zBuffer r) (buffer r) (colorBuffer r)
    (backgroundASCIICode r) (distanceFromCam r) h
    (verticalOffset r) (K1 r) (incrementSpeed r).

Definition set_verticalOffset (r : CubeRenderer) (v : R) : CubeRenderer :=
  mkRenderer (A r) (B r) (C r) (cubeWidth r) (width r) (height r)
    (zBuffer r) (buffer r) (colorBuffer r)
    (backgroundASCIICode r) (distanceFromCam r) (horizontalOffset r)
    v (K1 r) (incrementSpeed r).

Definition set_angles (r : CubeRenderer) (a b c : R) : CubeRenderer :=
  mkRenderer a b c (cubeWidth r) (width r) (height r)
    (zBuffer r) (buffer r) (colorBuffer r)
    (backgroundASCIICode r) (distanceFromCam r) (horizontalOffset r)
    (verticalOffset r) (K1 r) (incrementSpeed r).

Definition set_buffers (r : CubeRenderer) (zb : list R) (b : list ascii)
    (cb : list (option string)) : CubeRenderer :=
  mkRenderer (A r) (B r) (C r) (cubeWidth r) (width r) (height r)
    zb b cb
    (backgroundASCIICode r) (distanceFromCam r) (horizontalOffset r)
    (verticalOffset r) (K1 r) (incrementSpeed r).

(** Number of pixels, [width * height] in the source. *)
Definition cells (r : CubeRenderer) : nat := Z.to_nat (width r * height r).

(** The three pixel arrays have one cell per pixel, as [createRenderer]
    allocates them. *)
Definition well_formed (r : CubeRenderer) : Prop :=
  length (zBuffer r) = cells r /\
  length (buffer r) = cells r /\
  length (colorBuffer r) = cells r.

(** ** calculatePoint: the rotation transform *)

(** [sin] and [cos] take and give [double], so every product and sum is
    one of [double]; the assignment to a field of [p] rounds the sum to
    [float]. *)
Definition calculatePoint (renderer : CubeRenderer) (i j k : Z) : Point3D :=
  let A := A renderer in
  let B := B renderer in
  let C := C renderer in
  let sin := libm.sin in
  let cos := libm.cos in
  let i := IZR i in
  let j := IZR j in
  let k := IZR k in
  {| x := to_float
            (j ⊠ sin A ⊠ sin B ⊠ cos C ⊟ k ⊠ cos A ⊠ sin B ⊠ cos C ⊞
             j ⊠ cos A ⊠ sin C ⊞ k ⊠ sin A ⊠ sin C ⊞ i ⊠ cos B ⊠ cos C);
     y := to_float
            (j ⊠ cos A ⊠ cos C ⊞ k ⊠ sin A ⊠ cos C ⊟
             j ⊠ sin A ⊠ sin B ⊠ sin C ⊞ k ⊠ cos A ⊠ sin B ⊠ sin C ⊟
             i ⊠ cos B ⊠ sin C);
     z := to_float (k ⊠ cos A ⊠ cos B ⊟ j ⊠ sin A ⊠ cos B ⊞ i ⊠ sin B) |}.

(** ** projectAndDraw: projection and depth-tested write *)

(** All operands are [float], [0.001f], [1.0f] and [2.0f] included, and
    [width] and [height] are converted to [float] for the division. *)
Definition projectAndDraw (renderer : CubeRenderer) (cubeX cubeY cubeZ : R)
    (ch : ascii) (color : string) : CubeRenderer :=
  let p := calculatePoint renderer (Ctrunc cubeX) (Ctrunc cubeY) (Ctrunc cubeZ) in
  let pz := z p ⊕ distanceFromCam renderer in
  if Rle_dec pz (to_float 0.001) then renderer else
  let ooz := 1 ⊘ pz in
  let xp := Ctrunc (to_float (IZR (width renderer)) ⊘ 2 ⊕ horizontalOffset renderer ⊕
                    K1 renderer ⊗ ooz ⊗ x p ⊗ 2) in
  let yp := Ctrunc (to_float (IZR (height renderer)) ⊘ 2 ⊕ verticalOffset renderer ⊕
                    K1 renderer ⊗ ooz ⊗ y p) in
  let idx := (xp + yp * width renderer)%Z in
  if bool_decide (0 <= idx)%Z && bool_decide (idx < width renderer * height renderer)%Z then
    if Rgt_dec ooz (zBuffer renderer !!! Z.to_nat idx) then
      set_cell renderer (Z.to_nat idx) ooz ch (Some color)
    else renderer
  else renderer.

(** The two stages of [projectAndDraw], named after the components they
    implement: the perspective projector (source lines 208-219) and the
    depth-tested rasterizer (lines 222-230); [projectAndDraw_stages] shows
    that the function is their composition. *)
Definition project (renderer : CubeRenderer) (p : Point3D) : option (Z * Z * R) :=
  let pz := z p ⊕ distanceFromCam renderer in
  if Rle_dec pz (to_float 0.001) then None else
  let ooz := 1 ⊘ pz in
  let xp := Ctrunc (to_float (IZR (width renderer)) ⊘ 2 ⊕ horizontalOffset renderer ⊕
                    K1 renderer ⊗ ooz ⊗ x p ⊗ 2) in
  let yp := Ctrunc (to_float (IZR (height renderer)) ⊘ 2 ⊕ verticalOffset renderer ⊕
                    K1 renderer ⊗ ooz ⊗ y p) in
  Some (xp, yp, ooz).

Definition rasterize (renderer : CubeRenderer) (xp yp : Z) (ooz : R)
    (ch : ascii) (color : string) : CubeRenderer :=
  let idx := (xp + yp * width renderer)%Z in
  if bool_decide (0 <= idx)%Z && bool_decide (idx < width renderer * height renderer)%Z then
    if Rgt_dec ooz (zBuffer renderer !!! Z.to_nat idx) then
      set_cell renderer (Z.to_nat idx) ooz ch (Some color)
    else renderer
  else renderer.

(** ** drawCube: the six faces *)

(** [for (float v = from; v < bound; v += step) body]. The loop of the
    source has no bound on its number of turns ([step] may be zero or
    negative, or too small to move [v]), so the embedding counts them down
    from [fuel] and answers [None] when they run out. *)
Fixpoint for_float (fuel : nat) (v bound step : R)
    (body : R -> CubeRenderer -> option CubeRenderer)
    (renderer : CubeRenderer) : option CubeRenderer :=
  match fuel with
  | O => None
  | S fuel' =>
      if Rlt_dec v bound then
        match body v renderer with
        | Some renderer' => for_float fuel' (v ⊕ step) bound step body renderer'
        | None => None
        end
      else Some renderer
  end.

(** One face: the two nested loops over [cubeX] and [cubeY]; [sample] gives
    the point submitted for the pair. *)
Definition drawFace (fuel : nat) (cubeWidth increment : R)
    (sample : R -> R -> R * R * R) (color : string)
    (renderer : CubeRenderer) : option CubeRenderer :=
  for_float fuel (- cubeWidth) cubeWidth increment
    (fun cubeX =>
       for_float fuel (- cubeWidth) cubeWidth increment
         (fun cubeY renderer =>
            let '(px, py, pz) := sample cubeX cubeY in
            Some (projectAndDraw renderer px py pz "#"%char color)))
    renderer.

Definition RED : string := String ESC "[91m".
Definition GREEN : string := String ESC "[92m".
Definition YELLOW : string := String ESC "[93m".
Definition BLUE : string := String ESC "[94m".
Definition MAGENTA : string := String ESC "[95m".
Definition CYAN : string := String ESC "[96m".

Definition drawCube (fuel : nat) (renderer : CubeRenderer) : option CubeRenderer :=
  let cubeWidth := cubeWidth renderer in
  let increment := incrementSpeed renderer in
  let face := drawFace fuel cubeWidth increment in
  renderer ← face (fun cubeX cubeY => (cubeX, cubeY, - cubeWidth)) RED renderer;
  renderer ← face (fun cubeX cubeY => (cubeWidth, cubeY, cubeX)) GREEN renderer;
  renderer ← face (fun cubeX cubeY => (- cubeWidth, cubeY, - cubeX)) YELLOW renderer;
  renderer ← face (fun cubeX cubeY => (- cubeX, cubeY, cubeWidth)) BLUE renderer;
  renderer ← face (fun cubeX cubeY => (cubeX, - cubeWidth, - cubeY)) MAGENTA renderer;
  face (fun cubeX cubeY => (cubeX, cubeWidth, cubeY)) CYAN renderer.

(** ** clearBuffers *)

(** Cells [0 .. n-1] of an array set to [v], in increasing order: what
    [memset] does to the glyph and depth cells and the [for] loop to the
    colour cells. *)
Fixpoint fill {T : Type} (l : list T) (v : T) (n : nat) : list T :=
  match n with
  | O => l
  | S m => <[m := v]> (fill l v m)
  end.

Definition clearBuffers (renderer : CubeRenderer) : CubeRenderer :=
  set_buffers renderer
    (fill (zBuffer renderer) 0 (cells renderer))
    (fill (buffer renderer) (backgroundASCIICode renderer) (cells renderer))
    (fill (colorBuffer renderer) (Some ""%string) (cells renderer)).

(** ** render: the frame composer *)

(** [*outputPtr++ = c]. *)
Definition putc (out : string) (c : ascii) : string := out +:+ String c "".

Definition HOME : string := String ESC "[H".
Definition RESET : string := String ESC "[0m".

(** printf's [%.1f] belongs to the C library, not to the repository. It is
    taken here as ISO C describes it (7.21.6.1): the decimal expansion with
    one digit after the point, correctly rounded in the current rounding
    direction, which is to nearest with ties to even ([round_half_even])
    unless the program changes it (this program does not). *)
Definition decimal (n : Z) : string :=
  NilZero.string_of_uint (N.to_uint (Z.to_N n)).

Definition printf_1f (v : R) : string :=
  let tenths := round_half_even (Rabs v * 10) in
  (if Rlt_dec v 0 then "-" else "") +:+
  decimal (tenths / 10) +:+ "." +:+ decimal (tenths mod 10).

(** [sprintf(outputPtr, "\x1b[97mH=%.1f:V=%.1f:W=%.1f\x1b[0m", ...)]. *)
Definition sprintf_status (renderer : CubeRenderer) : string :=
  String ESC "[97mH=" +:+ printf_1f (horizontalOffset renderer) +:+
  ":V=" +:+ printf_1f (verticalOffset renderer) +:+
  ":W=" +:+ printf_1f (cubeWidth renderer) +:+ RESET.

(** The body of the pixel loop at index [k]. Reading a pixel the arrays do
    not have, or the first character of a [NULL] colour, is undefined in C:
    the embedding answers [None]. *)
Definition render_pixel (renderer : CubeRenderer) (k : Z) (out : string)
    : option string :=
  let out := if (Z.rem k (width renderer) =? 0)%Z && (0 <? k)%Z
             then putc out LF else out in
  match colorBuffer renderer !! Z.to_nat k with
  | Some (Some color) =>
      let hasColor := negb (String.eqb color "") in
      let out := if hasColor then out +:+ color else out in
      match buffer renderer !! Z.to_nat k with
      | Some ch =>
          let out := putc out ch in
          Some (if hasColor then out +:+ RESET else out)
      | None => None
      end
  | _ => None
  end.

(** [for (int k = ...; k < width * height; k++)], with [todo] turns left. *)
Fixpoint render_loop (renderer : CubeRenderer) (todo : nat) (k : Z)
    (out : string) : option string :=
  match todo with
  | O => Some out
  | S todo' =>
      match render_pixel renderer k out with
      | Some out' => render_loop renderer todo' (k + 1)%Z out'
      | None => None
      end
  end.

(** The scratch area: [createRenderer] asks for
    [width * height * 10 + height + 200] bytes for the block of [buffer],
    and [render] writes from [buffer + width * height] on. *)
Definition scratch_size (renderer : CubeRenderer) : Z :=
  (width renderer * height renderer * 10 + height renderer + 200 -
   width renderer * height renderer)%Z.

(** The bytes [render] hands to [fwrite]. They are written one behind the
    other from the start of the scratch area, and behind them the NUL that
    ends the status line; when they do not all fit, the source writes past
    the end of its block, which is undefined: [None]. *)
Definition render (renderer : CubeRenderer) : option string :=
  match render_loop renderer (cells renderer) 0%Z HOME with
  | Some out =>
      let out := out +:+ RESET +:+ HOME +:+ sprintf_status renderer in
      if bool_decide (Z.of_nat (String.length out) < scratch_size renderer)%Z
      then Some out else None
  | None => None
  end.

(** ** handleInput *)

(** [key] is what the terminal has pending: [None] when [kbhit] answers 0,
    [Some c] when [getchar] then delivers [c]. The result carries the new
    value of [*running]. The sums and differences are those of [float];
    [fmin] and [fmax] give a [double], which the assignment to [cubeWidth]
    converts to [float]. *)
Definition handleInput (renderer : CubeRenderer) (key : option ascii)
    (running : bool) : CubeRenderer * bool :=
  match key with
  | None => (renderer, running)
  | Some c =>
      match c with
      | "q"%char => (renderer, false)
      | "h"%char =>
          (set_horizontalOffset renderer (horizontalOffset renderer ⊖ 5), running)
      | "j"%char =>
          (set_verticalOffset renderer (verticalOffset renderer ⊕ 1), running)
      | "k"%char =>
          (set_verticalOffset renderer (verticalOffset renderer ⊖ 1), running)
      | "l"%char =>
          (set_horizontalOffset renderer (horizontalOffset renderer ⊕ 5), running)
      | "+"%char | "="%char =>
          (set_cubeWidth renderer
             (to_float (libm.fmin (cubeWidth renderer ⊕ 1) MAX_CUBE_WIDTH)), running)
      | "-"%char | "_"%char =>
          (set_cubeWidth renderer
             (to_float (libm.fmax (cubeWidth renderer ⊖ 1) MIN_CUBE_WIDTH)), running)
      | _ => (renderer, running)
      end
  end.

(** ** gameLoop *)

(** [keys] scripts the terminal: its head is what the next call of
    [handleInput] finds. The loop runs until a 'q' arrives; a script that
    ends before that leaves it running, [None]. [fuel] is that of the
    loops of [drawCube]. The result is the renderer at exit and the frames
    written, oldest first. A turn in which [render] is undefined makes
    the loop undefined, [None] as well. *)
Fixpoint gameLoop (fuel : nat) (keys : list (option ascii))
    (renderer : CubeRenderer) (frames : list string)
    : option (CubeRenderer * list string) :=
  match keys with
  | [] => None
  | key :: keys' =>
      let renderer := clearBuffers renderer in
      let '(renderer, running) := handleInput renderer key true in
      if negb running then Some (renderer, frames) else
      renderer ← drawCube fuel renderer;
      frame ← render renderer;
      let renderer := set_angles renderer (A renderer ⊕ to_float 0.05)
                        (B renderer ⊕ to_float 0.05) (C renderer ⊕ to_float 0.01) in
      gameLoop fuel keys' renderer (frames ++ [frame])
  end.

(** ** createRenderer and main *)

(** The C heap as far as the program can tell: which blocks are allocated,
    what the library will answer to the coming requests, and what a block
    obtained from [malloc] happens to contain. *)
Record heap := mkHeap {
  live : gset nat;
  verdicts : list bool;
  junk : nat -> ascii
}.

(** [malloc] and [calloc]: [None] is [NULL]. The head of [verdicts] decides;
    when the list is used up every request is granted. A granted block is
    one that is not allocated at the moment. *)
Definition alloc (h : heap) : option nat * heap :=
  match verdicts h with
  | false :: rest => (None, mkHeap (live h) rest (junk h))
  | _ => (Some (fresh (live h)),
          mkHeap ({[fresh (live h)]} ∪ live h) (tail (verdicts h)) (junk h))
  end.

(** [free(p)]; [free(NULL)] does nothing. *)
Definition free (p : option nat) (h : heap) : heap :=
  match p with
  | None => h
  | Some b => mkHeap (live h ∖ {[b]}) (verdicts h) (junk h)
  end.

(** The blocks behind a renderer: the struct and its three arrays. *)
Record RendererBlocks := mkBlocks {
  self_block : nat;
  zBuffer_block : nat;
  buffer_block : nat;
  colorBuffer_block : nat
}.

(** [calloc] zeroes its block: depth cells are 0 and colour cells [NULL].
    [malloc] leaves in the glyph cells whatever the block held, [junk]. *)
Definition createRenderer (width height : Z) (h : heap)
    : option (CubeRenderer * RendererBlocks) * heap :=
  let '(renderer, h) := alloc h in
  match renderer with
  | None => (None, h)
  | Some rp =>
      let n := Z.to_nat (width * height) in
      let '(zp, h) := alloc h in
      let '(bp, h) := alloc h in
      let '(cp, h) := alloc h in
      match zp, bp, cp with
      | Some zb, Some bb, Some cb =>
          (Some (mkRenderer 0 0 0 DEFAULT_CUBE_WIDTH width height
                   (replicate n 0) (junk h <$> seq 0 n) (replicate n None)
                   " "%char DEFAULT_DISTANCE 0 0 DEFAULT_K1 DEFAULT_INCREMENT,
                 mkBlocks rp zb bb cb), h)
      | _, _, _ =>
          (None, free (Some rp) (free cp (free bp (free zp h))))
      end
  end.

Definition destroyRenderer (renderer : option (CubeRenderer * RendererBlocks))
    (h : heap) : heap :=
  match renderer with
  | Some (_, blocks) =>
      free (Some (self_block blocks))
        (free (Some (colorBuffer_block blocks))
           (free (Some (buffer_block blocks))
              (free (Some (zBuffer_block blocks)) h)))
  | None => h
  end.

(** The three assignments of [main] between construction and the loop. *)
Definition main_setup (renderer : CubeRenderer) : CubeRenderer :=
  let renderer := set_cubeWidth renderer 10 in
  let renderer := set_horizontalOffset renderer (cubeWidth renderer) in
  set_verticalOffset renderer 0.

(** What [main] leaves behind: exit status, heap, and the chunks written to
    the standard output; the message on the standard error is left out.
    [None]: the game loop did not come to its end, or was undefined. *)
Definition main (fuel : nat) (keys : list (option ascii)) (h : heap)
    : option (Z * heap * list string) :=
  let out := [String ESC "[2J"; String ESC "[36m"] in
  match createRenderer DEFAULT_WIDTH DEFAULT_HEIGHT h with
  | (None, h) => Some (1%Z, h, out)
  | (Some (renderer, blocks), h) =>
      '(renderer, frames) ← gameLoop fuel keys (main_setup renderer) [];
      let h := destroyRenderer (Some (renderer, blocks)) h in
      Some (0%Z, h, out ++ frames ++ [RESET; String ESC "[2J"; HOME])
  end.

(** ** Notions used by the properties *)

(** [n] is [v] without its fractional part: no farther from zero than [v],
    less than one away from it, and never on the other side of zero. *)
Definition toward_zero (v : R) (n : Z) : Prop :=
  Rabs (IZR n) <= Rabs v < Rabs (IZR n) + 1 /\ 0 <= v * IZR n.

(** The values of [int]. *)
Definition int_value (n : Z) : Prop := (- 2 ^ 31 <= n < 2 ^ 31)%Z.

(** [(int)v] is defined when [v] without its fractional part is a value of
    [int] (ISO C 6.3.1.4). *)
Definition int_range (v : R) : Prop := - pow2 31 - 1 < v < pow2 31.

(** The largest [float], FLT_MAX = (2^24 - 1) * 2^104. An operation
    overflows when its rounded result is greater. *)
Definition FLT_MAX : R := 16777215 * pow2 104.

Definition float_range (v : R) : Prop := Rabs v <= FLT_MAX.

(** The projection of [p] is defined: no operation of it overflows, and the
    two screen coordinates can be converted to [int]. *)
Definition project_defined (renderer : CubeRenderer) (p : Point3D) : Prop :=
  let pz := z p ⊕ distanceFromCam renderer in
  let ooz := 1 ⊘ pz in
  let centerX := to_float (IZR (width renderer)) ⊘ 2 ⊕ horizontalOffset renderer in
  let centerY := to_float (IZR (height renderer)) ⊘ 2 ⊕ verticalOffset renderer in
  int_value (width renderer) /\ int_value (height renderer) /\
  Forall float_range
    [pz; ooz; centerX; centerY; K1 renderer ⊗ ooz;
     K1 renderer ⊗ ooz ⊗ x p; K1 renderer ⊗ ooz ⊗ x p ⊗ 2;
     K1 renderer ⊗ ooz ⊗ y p] /\
  int_range (centerX ⊕ K1 renderer ⊗ ooz ⊗ x p ⊗ 2) /\
  int_range (centerY ⊕ K1 renderer ⊗ ooz ⊗ y p).

(** One key delivered to [handleInput], and a run of them, one per turn of
    the game loop. *)
Definition press (renderer : CubeRenderer) (c : ascii) : CubeRenderer :=
  fst (handleInput renderer (Some c) true).

Definition press_all (renderer : CubeRenderer) (keys : list ascii) : CubeRenderer :=
  foldl press renderer keys.

Definition grow_key (c : ascii) : Prop := c = "+"%char \/ c = "="%char.
Definition shrink_key (c : ascii) : Prop := c = "-"%char \/ c = "_"%char.

(** A sample handed to [projectAndDraw]. *)
Record Submission := mkSubmission {
  cubeX : R; cubeY : R; cubeZ : R; glyph : ascii; tag : string
}.

Definition submit (renderer : CubeRenderer) (s : Submission) : CubeRenderer :=
  projectAndDraw renderer (cubeX s) (cubeY s) (cubeZ s) (glyph s) (tag s).

(** The cell of the screen position [(xp, yp)], [idx] in the source, and
    the bounds test applied to it. *)
Definition pixel_index (renderer : CubeRenderer) (xp yp : Z) : Z :=
  (xp + yp * width renderer)%Z.

Definition on_screen (renderer : CubeRenderer) (xp yp : Z) : Prop :=
  (0 <= pixel_index renderer xp yp < width renderer * height renderer)%Z.

(** The states of one frame: [clearBuffers], then any number of
    submissions. *)
Inductive frame_state (start : CubeRenderer) : CubeRenderer -> Prop :=
  | frame_cleared : frame_state start (clearBuffers start)
  | frame_submitted renderer s :
      frame_state start renderer -> frame_state start (submit renderer s).

(** The depth invariant of a frame: no depth cell is negative, and a pixel
    whose depth cell is 0 shows the background glyph with the empty colour
    tag. *)
Definition frame_inv (renderer : CubeRenderer) : Prop :=
  well_formed renderer /\
  forall (i : nat) (d : R), zBuffer renderer !! i = Some d ->
    0 <= d /\
    (d = 0 ->
     buffer renderer !! i = Some (backgroundASCIICode renderer) /\
     colorBuffer renderer !! i = Some (Some ""%string)).

(** The pixel [i] as its three cells. *)
Definition pixel (renderer : CubeRenderer) (i : nat)
    : option R * option ascii * option (option string) :=
  (zBuffer renderer !! i, buffer renderer !! i, colorBuffer renderer !! i).

(** *** The frame as the specification words it

    Rows from top to bottom, pixels from left to right; a line feed opens
    every row but the first; a pixel is its glyph, wrapped in its colour
    escape and a reset when the colour tag is not empty; cursor-home in
    front; reset, cursor-home and the status line behind. *)

Fixpoint flatten (l : list string) : string :=
  match l with
  | [] => ""
  | s :: l' => s +:+ flatten l'
  end.

Definition pixel_text (color : string) (ch : ascii) : string :=
  if String.eqb color "" then String ch ""
  else color +:+ String ch "" +:+ RESET.

Definition tag_at (renderer : CubeRenderer) (i : nat) : string :=
  match colorBuffer renderer !! i with
  | Some (Some color) => color
  | _ => ""
  end.

Definition glyph_at (renderer : CubeRenderer) (i : nat) : ascii :=
  match buffer renderer !! i with
  | Some ch => ch
  | None => backgroundASCIICode renderer
  end.

Definition row_text (renderer : CubeRenderer) (row : nat) : string :=
  let W := Z.to_nat (width renderer) in
  (if (0 <? row)%nat then String LF "" else "") +:+
  flatten ((fun col => pixel_text (tag_at renderer (col + row * W))
                                  (glyph_at renderer (col + row * W)))
           <$> seq 0 W).

Definition grid_text (renderer : CubeRenderer) : string :=
  flatten (row_text renderer <$> seq 0 (Z.to_nat (height renderer))).

(** "H=<1dp>:V=<1dp>:W=<1dp>", wrapped in bright white and a reset. *)
Definition status_text (h v w : R) : string :=
  "H=" +:+ printf_1f h +:+ ":V=" +:+ printf_1f v +:+ ":W=" +:+ printf_1f w.

Definition WHITE : string := String ESC "[97m".

Definition compose_frame (renderer : CubeRenderer) : string :=
  HOME +:+ grid_text renderer +:+ RESET +:+ HOME +:+
  (WHITE +:+
   status_text (horizontalOffset renderer) (verticalOffset renderer)
     (cubeWidth renderer) +:+
   RESET).

(** What the pixel loop of [render] appends for the cell [k]. *)
Definition cell_text (renderer : CubeRenderer) (k : nat) : string :=
  (if (Z.rem (Z.of_nat k) (width renderer) =? 0)%Z && (0 <? Z.of_nat k)%Z
   then String LF "" else "") +:+
  pixel_text (tag_at renderer k) (glyph_at renderer k).

(** The frame, with the NUL behind it, fits into the scratch area. *)
Definition frame_fits (renderer : CubeRenderer) : Prop :=
  (Z.of_nat (String.length (compose_frame renderer)) < scratch_size renderer)%Z.

(** The number of pixels that carry a colour. *)
Definition colored (renderer : CubeRenderer) : nat :=
  length (filter (fun k => tag_at renderer k <> ""%string)
            (seq 0 (cells renderer))).

(** The colour tags are those [clearBuffers] and [drawCube] write: the
    empty string and escapes of five characters. *)
Definition face_colors (renderer : CubeRenderer) : Prop :=
  forall k, (k < cells renderer)%nat ->
    tag_at renderer k = ""%string \/ String.length (tag_at renderer k) = 5%nat.

(** Every colour cell points to a string. *)
Definition colors_set (renderer : CubeRenderer) : Prop :=
  forall i, (i < cells renderer)%nat ->
    exists color, colorBuffer renderer !! i = Some (Some color).

(** One of the requests [createRenderer] makes is refused: the first, for
    the struct, or, once that is granted, one of the three for the
    arrays. *)
Definition allocation_fails (h : heap) : Prop :=
  verdicts h !! 0%nat = Some false \/
  (verdicts h !! 0%nat <> Some false /\
   (verdicts h !! 1%nat = Some false \/
    verdicts h !! 2%nat = Some false \/
    verdicts h !! 3%nat = Some false)).

(** ** Examples *)

(** A renderer for the examples: a 4 x 4 screen with the parameters
    [createRenderer] and [main] install, angles at zero. *)
Definition sample_renderer : CubeRenderer :=
  mkRenderer 0 0 0 10 4 4
    (replicate 16 0) (replicate 16 " "%char) (replicate 16 (Some ""%string))
    " "%char DEFAULT_DISTANCE 10 0 DEFAULT_K1 DEFAULT_INCREMENT.

(** The renderer [createRenderer] builds for the 160 x 44 screen of
    [main], its buffers cleared. *)
Definition default_renderer : CubeRenderer :=
  mkRenderer 0 0 0 DEFAULT_CUBE_WIDTH DEFAULT_WIDTH DEFAULT_HEIGHT
    (replicate (Z.to_nat (DEFAULT_WIDTH * DEFAULT_HEIGHT)) 0)
    (replicate (Z.to_nat (DEFAULT_WIDTH * DEFAULT_HEIGHT)) " "%char)
    (replicate (Z.to_nat (DEFAULT_WIDTH * DEFAULT_HEIGHT)) (Some ""%string))
    " "%char DEFAULT_DISTANCE 0 0 DEFAULT_K1 DEFAULT_INCREMENT.

(** The 160 x 44 screen with a red '#' on every pixel. *)
Definition covered_renderer : CubeRenderer :=
  mkRenderer 0 0 0 MAX_CUBE_WIDTH DEFAULT_WIDTH DEFAULT_HEIGHT
    (replicate (Z.to_nat (DEFAULT_WIDTH * DEFAULT_HEIGHT)) 0.5)
    (replicate (Z.to_nat (DEFAULT_WIDTH * DEFAULT_HEIGHT)) "#"%char)
    (replicate (Z.to_nat (DEFAULT_WIDTH * DEFAULT_HEIGHT)) (Some RED))
    " "%char DEFAULT_DISTANCE 0 0 DEFAULT_K1 DEFAULT_INCREMENT.

(** [sample_renderer] with [cubeWidth] at 32 - 2^-19 = 31.999998092651367,
    the [float] next below 32. *)
Definition fine_renderer : CubeRenderer :=
  set_cubeWidth sample_renderer (16777215 / 524288).

(** A heap with two blocks in use whose library refuses the third request
    to come. *)
Definition sample_heap : heap :=
  mkHeap {[ 0%nat; 5%nat ]} [true; true; false] (fun _ => "?"%char).

(** A heap with nothing allocated whose library grants every request. *)
Definition idle_heap : heap := mkHeap ∅ [] (fun _ => "?"%char).

(** The renderer of the status-line scenario: [horizontalOffset = 3.25],
    [verticalOffset = -1.0], [cubeWidth = 10.0]. *)
Definition status_renderer : CubeRenderer :=
  set_verticalOffset (set_horizontalOffset sample_renderer 3.25) (-1).

(** A 2 x 2 screen with a red '#' in its upper right corner and a cyan '#'
    in its lower left one. *)
Definition small_renderer : CubeRenderer :=
  mkRenderer 0 0 0 10 2 2
    [0; 0.5; 0.5; 0] [" "; "#"; "#"; "."]%char
    [Some ""%string; Some RED; Some CYAN; Some ""%string]
    " "%char DEFAULT_DISTANCE 10 0 DEFAULT_K1 DEFAULT_INCREMENT.

(** The renderer of the end-to-end scenario: a 4 x 4 screen, angles at
    zero, [cubeWidth = 1], [incrementSpeed = 1], no offsets, already
    cleared. *)
Definition scenario_renderer : CubeRenderer :=
  mkRenderer 0 0 0 1 4 4
    (replicate 16 0) (replicate 16 " "%char) (replicate 16 (Some ""%string))
    " "%char DEFAULT_DISTANCE 0 0 DEFAULT_K1 1.

(** Its front-face sample at [cubeX = 0], [cubeY = 0]. *)
Definition scenario_sample : Submission :=
  mkSubmission 0 0 (-1) "#"%char RED.
(** * Properties *)

(** ** Conversions *)

Lemma Int_part_bounds v : IZR (Int_part v) <= v < IZR (Int_part v) + 1.
Proof. destruct (base_Int_part v). lra. Qed.

Lemma Int_part_unique v n : IZR n <= v < IZR n + 1 -> Int_part v = n.
Proof. intros H. symmetry. apply Int_part_spec. lra. Qed.

Lemma Int_part_nonneg v : 0 <= v -> 0 <= IZR (Int_part v).
Proof.
  intros Hv. destruct (Int_part_bounds v) as [_ Hlt].
  apply IZR_le. destruct (Z_lt_le_dec (Int_part v) 0) as [Hn|]; [|done].
  assert (Hm : (Int_part v <= -1)%Z) by lia. apply IZR_le in Hm. lra.
Qed.

Lemma Ctrunc_nonneg v n : 0 <= v -> IZR n <= v < IZR n + 1 -> Ctrunc v = n.
Proof.
  intros Hv H. unfold Ctrunc. destruct (Rle_dec 0 v); [|lra].
  by apply Int_part_unique.
Qed.

Lemma Ctrunc_neg v n : v < 0 -> IZR n - 1 < v <= IZR n -> Ctrunc v = n.
Proof.
  intros Hv H. unfold Ctrunc. destruct (Rle_dec 0 v); [lra|].
  rewrite (Int_part_unique (- v) (- n)); [lia|].
  rewrite opp_IZR. lra.
Qed.

Lemma Ctrunc_IZR n : Ctrunc (IZR n) = n.
Proof.
  destruct (Rle_dec 0 (IZR n)).
  - apply Ctrunc_nonneg; lra.
  - apply Ctrunc_neg; lra.
Qed.

Lemma Ctrunc_toward_zero v : toward_zero v (Ctrunc v).
Proof.
  unfold toward_zero, Ctrunc. destruct (Rle_dec 0 v) as [Hv|Hv].
  - destruct (Int_part_bounds v) as [H1 H2].
    pose proof (Int_part_nonneg v Hv) as H0.
    rewrite !Rabs_pos_eq by lra. split; [lra|nra].
  - destruct (Int_part_bounds (- v)) as [H1 H2].
    assert (H0 : 0 <= IZR (Int_part (- v))) by (apply Int_part_nonneg; lra).
    rewrite opp_IZR, Rabs_Ropp, Rabs_pos_eq, Rabs_left by lra.
    split; [lra|nra].
Qed.

(** ** Floating point *)

Lemma round_half_even_near v n :
  IZR n - 1 / 2 < v < IZR n + 1 / 2 -> round_half_even v = n.
Proof.
  intros [Hlo Hhi]. unfold round_half_even.
  destruct (Rle_dec (IZR n) v) as [Hge|Hlt].
  - rewrite (Int_part_unique v n) by lra.
    destruct (Rlt_dec _ _); [done|lra].
  - rewrite (Int_part_unique v (n - 1)) by (rewrite minus_IZR; lra).
    rewrite minus_IZR.
    destruct (Rlt_dec _ _); [lra|].
    destruct (Rlt_dec _ _); [lia|lra].
Qed.

Lemma round_half_even_tie n :
  round_half_even (IZR n + 1 / 2) = if Z.even n then n else (n + 1)%Z.
Proof.
  unfold round_half_even.
  rewrite (Int_part_unique (IZR n + 1 / 2) n) by lra.
  destruct (Rlt_dec _ _); [lra|].
  destruct (Rlt_dec _ _); [lra|done].
Qed.

(** *** Powers of two *)

Lemma ln2_pos : 0 < ln 2.
Proof. rewrite <- ln_1. apply ln_increasing; lra. Qed.

Lemma pow2_exp k : pow2 k = exp (IZR k * ln 2).
Proof. unfold pow2. rewrite powerRZ_Rpower by lra. reflexivity. Qed.

Lemma pow2_pos k : 0 < pow2 k.
Proof. apply powerRZ_lt. lra. Qed.

Lemma pow2_add a b : pow2 (a + b) = pow2 a * pow2 b.
Proof. apply powerRZ_add. lra. Qed.

Lemma pow2_0 : pow2 0 = 1.
Proof. reflexivity. Qed.

Lemma pow2_sub a b : pow2 (a - b) = pow2 a / pow2 b.
Proof.
  pose proof (pow2_pos b).
  replace a with ((a - b) + b)%Z at 2 by lia.
  rewrite pow2_add. field. lra.
Qed.

Lemma pow2_lt a b : (a < b)%Z -> pow2 a < pow2 b.
Proof.
  intros H. rewrite !pow2_exp. apply exp_increasing.
  apply Rmult_lt_compat_r; [apply ln2_pos|]. by apply IZR_lt.
Qed.

Lemma pow2_le a b : (a <= b)%Z -> pow2 a <= pow2 b.
Proof.
  intros H. destruct (Z.eq_dec a b) as [->|]; [lra|].
  left. apply pow2_lt. lia.
Qed.

Lemma pow2_lt_inv a b : pow2 a < pow2 b -> (a < b)%Z.
Proof.
  intros H. destruct (Z_lt_le_dec a b) as [|Hle]; [assumption|].
  apply pow2_le in Hle. lra.
Qed.

Lemma pow2_IZR n : (0 <= n)%Z -> pow2 n = IZR (2 ^ n).
Proof.
  intros H. unfold pow2.
  rewrite <- (Z2Nat.id n) by assumption.
  rewrite <- pow_powerRZ, <- pow_IZR. reflexivity.
Qed.

(** *** The exponent of a real number *)

Lemma mag2_spec v : v <> 0 -> pow2 (mag2 v) <= Rabs v < pow2 (mag2 v + 1).
Proof.
  intros Hv. assert (Ha : 0 < Rabs v) by (by apply Rabs_pos_lt).
  pose proof ln2_pos as H2.
  unfold mag2. destruct (Int_part_bounds (ln (Rabs v) / ln 2)) as [Hlo Hhi].
  set (k := Int_part (ln (Rabs v) / ln 2)) in *.
  assert (Hlo' : IZR k * ln 2 <= ln (Rabs v)).
  { apply (Rmult_le_compat_r (ln 2)) in Hlo; [|lra].
    replace (ln (Rabs v) / ln 2 * ln 2) with (ln (Rabs v)) in Hlo by (field; lra).
    exact Hlo. }
  assert (Hhi' : ln (Rabs v) < IZR (k + 1) * ln 2).
  { apply (Rmult_lt_compat_r (ln 2)) in Hhi; [|lra].
    replace (ln (Rabs v) / ln 2 * ln 2) with (ln (Rabs v)) in Hhi by (field; lra).
    rewrite plus_IZR. exact Hhi. }
  rewrite !pow2_exp. pose proof (exp_ln (Rabs v) Ha) as He.
  split.
  - rewrite <- He at 1.
    destruct Hlo' as [Hlt|Heq]; [left; by apply exp_increasing|right; by rewrite Heq].
  - rewrite <- He at 1. by apply exp_increasing.
Qed.

Lemma mag2_unique v k : pow2 k <= Rabs v < pow2 (k + 1) -> mag2 v = k.
Proof.
  intros [Hlo Hhi]. pose proof (pow2_pos k) as Hk.
  assert (Hv : v <> 0).
  { intros ->. rewrite Rabs_R0 in Hlo. lra. }
  destruct (mag2_spec v Hv) as [Hlo' Hhi'].
  assert (mag2 v < k + 1)%Z by (apply pow2_lt_inv; lra).
  assert (k < mag2 v + 1)%Z by (apply pow2_lt_inv; lra).
  lia.
Qed.

(** *** Rounding to the nearest integer *)

Lemma Rabs_le_bounds v a : Rabs v <= a -> - a <= v <= a.
Proof. unfold Rabs. destruct (Rcase_abs v); lra. Qed.

Lemma round_half_even_IZR n : round_half_even (IZR n) = n.
Proof. apply round_half_even_near. lra. Qed.

Lemma round_half_even_error v : Rabs (IZR (round_half_even v) - v) <= 1 / 2.
Proof.
  unfold round_half_even. destruct (Int_part_bounds v) as [Hlo Hhi].
  destruct (Rlt_dec _ _) as [H1|H1].
  - apply Rabs_le. lra.
  - destruct (Rlt_dec _ _) as [H2|H2].
    + rewrite plus_IZR. apply Rabs_le. lra.
    + destruct (Z.even _); [|rewrite plus_IZR]; apply Rabs_le; lra.
Qed.

(** *** Rounding to a binary format *)

Lemma round_float_0 prec emin : round_float prec emin 0 = 0.
Proof. unfold round_float. by destruct (Req_dec_T 0 0). Qed.

Lemma round_float_binade prec emin v e :
  (emin <= e)%Z -> pow2 (e + prec - 1) <= Rabs v < pow2 (e + prec) ->
  round_float prec emin v = IZR (round_half_even (v / pow2 e)) * pow2 e.
Proof.
  intros He Hv. unfold round_float.
  destruct (Req_dec_T v 0) as [->|Hne].
  { rewrite Rabs_R0 in Hv. pose proof (pow2_pos (e + prec - 1)). lra. }
  rewrite (mag2_unique v (e + prec - 1)).
  2: { by replace (e + prec - 1 + 1)%Z with (e + prec)%Z by lia. }
  by replace (Z.max (e + prec - 1 - prec + 1) emin) with e by lia.
Qed.

Lemma mag2_scaled m e :
  m <> 0%Z -> mag2 (IZR m * pow2 e) = (Z.log2 (Z.abs m) + e)%Z.
Proof.
  intros Hm. pose proof (pow2_pos e) as He.
  destruct (Z.log2_spec (Z.abs m)) as [Hlo Hhi]; [lia|].
  pose proof (Z.log2_nonneg (Z.abs m)) as Hj.
  apply mag2_unique.
  rewrite Rabs_mult, (Rabs_pos_eq (pow2 e)), <- abs_IZR by lra.
  replace (Z.log2 (Z.abs m) + e + 1)%Z with (Z.succ (Z.log2 (Z.abs m)) + e)%Z by lia.
  rewrite !pow2_add, (pow2_IZR (Z.log2 _)), (pow2_IZR (Z.succ _)) by lia.
  apply IZR_le in Hlo. apply IZR_lt in Hhi. split.
  - apply Rmult_le_compat_r; [lra|done].
  - apply Rmult_lt_compat_r; [lra|done].
Qed.

Lemma round_float_exact prec emin m e :
  (0 < prec)%Z -> (emin <= e)%Z -> (Z.abs m <= 2 ^ prec)%Z ->
  round_float prec emin (IZR m * pow2 e) = IZR m * pow2 e.
Proof.
  intros Hp He Hm.
  destruct (Z.eq_dec m 0%Z) as [->|Hm0].
  { rewrite Rmult_0_l. apply round_float_0. }
  pose proof (pow2_pos e) as Hpe.
  unfold round_float. destruct (Req_dec_T _ _) as [H0|_].
  { apply Rmult_integral in H0 as [H0|H0]; [|lra]. by apply eq_IZR in H0. }
  rewrite (mag2_scaled m e Hm0).
  set (j := Z.log2 (Z.abs m)).
  destruct (Z.log2_spec (Z.abs m)) as [Hlo Hhi]; [lia|]. fold j in Hlo, Hhi.
  pose proof (Z.log2_nonneg (Z.abs m)) as Hj. fold j in Hj.
  set (e' := Z.max (j + e - prec + 1) emin).
  assert (Hq : exists q, IZR m * pow2 e = IZR q * pow2 e').
  { destruct (Z_le_gt_dec e' e) as [Hle|Hgt].
    - exists (m * 2 ^ (e - e'))%Z.
      rewrite mult_IZR, <- pow2_IZR, Rmult_assoc, <- pow2_add by lia.
      do 2 f_equal. lia.
    - assert (Hjp : (j <= prec)%Z).
      { apply (Z.pow_le_mono_r_iff 2); [lia|lia|]. by transitivity (Z.abs m). }
      assert (Hj' : j = prec) by lia. subst j.
      assert (He' : e' = (e + 1)%Z) by lia.
      assert (Habs : Z.abs m = (2 * 2 ^ (prec - 1))%Z).
      { rewrite <- Z.pow_succ_r by lia.
        replace (Z.succ (prec - 1)) with prec by lia.
        apply Z.le_antisymm; [done|]. by rewrite <- Hj'. }
      set (half := (if (0 <=? m)%Z then 2 ^ (prec - 1) else - 2 ^ (prec - 1))%Z).
      exists half.
      rewrite He', pow2_add.
      replace (pow2 1) with 2 by (unfold pow2; simpl; lra).
      assert (Hm2 : m = (half * 2)%Z).
      { unfold half. destruct (Z.leb_spec 0 m); lia. }
      rewrite Hm2 at 1. rewrite mult_IZR. lra. }
  destruct Hq as [q Hq]. rewrite Hq.
  pose proof (pow2_pos e') as Hpe'.
  replace (IZR q * pow2 e' / pow2 e') with (IZR q) by (field; lra).
  by rewrite round_half_even_IZR.
Qed.

Lemma round_float_format prec emin v :
  (0 < prec)%Z ->
  exists m e, round_float prec emin v = IZR m * pow2 e /\
              (Z.abs m <= 2 ^ prec)%Z /\ (emin <= e)%Z.
Proof.
  intros Hp. unfold round_float. destruct (Req_dec_T v 0) as [->|Hv].
  { exists 0%Z, emin. split; [lra|]. split; [|lia].
    pose proof (Z.pow_pos_nonneg 2 prec). simpl. lia. }
  set (e := Z.max (mag2 v - prec + 1) emin).
  exists (round_half_even (v / pow2 e)), e. split; [done|]. split; [|lia].
  pose proof (pow2_pos e) as He.
  destruct (mag2_spec v Hv) as [_ Hhi].
  assert (Hx : Rabs (v / pow2 e) < IZR (2 ^ prec)).
  { unfold Rdiv. rewrite Rabs_mult, Rabs_inv, (Rabs_pos_eq (pow2 e)) by lra.
    apply (Rmult_lt_reg_r (pow2 e)); [done|].
    replace (Rabs v * / pow2 e * pow2 e) with (Rabs v) by (field; lra).
    rewrite <- pow2_IZR, <- pow2_add by lia.
    eapply Rlt_le_trans; [exact Hhi|]. apply pow2_le. lia. }
  pose proof (round_half_even_error (v / pow2 e)) as Herr.
  set (n := round_half_even (v / pow2 e)) in *.
  assert (Hn : IZR (Z.abs n) < IZR (2 ^ prec + 1)).
  { rewrite abs_IZR, plus_IZR.
    apply Rabs_le_bounds in Herr.
    apply Rabs_def2 in Hx. apply Rabs_def1; lra. }
  apply lt_IZR in Hn. lia.
Qed.

Lemma round_float_idempotent prec emin v :
  (0 < prec)%Z ->
  round_float prec emin (round_float prec emin v) = round_float prec emin v.
Proof.
  intros Hp. destruct (round_float_format prec emin v Hp) as (m & e & -> & Hm & He).
  by apply round_float_exact.
Qed.

Lemma round_float_error prec emin v :
  Rabs (round_float prec emin v - v) <= pow2 (Z.max (mag2 v - prec + 1) emin) / 2.
Proof.
  unfold round_float. set (e := Z.max (mag2 v - prec + 1) emin).
  pose proof (pow2_pos e) as He.
  destruct (Req_dec_T v 0) as [->|Hv].
  { rewrite Rminus_0_r, Rabs_R0. lra. }
  pose proof (round_half_even_error (v / pow2 e)) as Herr.
  replace (IZR (round_half_even (v / pow2 e)) * pow2 e - v)
    with ((IZR (round_half_even (v / pow2 e)) - v / pow2 e) * pow2 e) by (field; lra).
  rewrite Rabs_mult, (Rabs_pos_eq (pow2 e)) by lra. nra.
Qed.

Lemma round_float_near prec emin v e n :
  (emin <= e)%Z -> pow2 (e + prec - 1) <= Rabs v < pow2 (e + prec) ->
  IZR n - 1 / 2 < v / pow2 e < IZR n + 1 / 2 ->
  round_float prec emin v = IZR n * pow2 e.
Proof.
  intros He Hv Hn. rewrite (round_float_binade prec emin v e He Hv).
  by rewrite (round_half_even_near _ n Hn).
Qed.

Lemma round_float_tie prec emin v e n :
  (emin <= e)%Z -> pow2 (e + prec - 1) <= Rabs v < pow2 (e + prec) ->
  v / pow2 e = IZR n + 1 / 2 ->
  round_float prec emin v = IZR (if Z.even n then n else n + 1) * pow2 e.
Proof.
  intros He Hv Hn. rewrite (round_float_binade prec emin v e He Hv).
  by rewrite Hn, round_half_even_tie.
Qed.

Lemma pow2_Zpos p : pow2 (Z.pos p) = IZR (Z.pow_pos 2 p).
Proof. apply (pow2_IZR (Z.pos p)). lia. Qed.

Lemma pow2_Zneg p : pow2 (Z.neg p) = / IZR (Z.pow_pos 2 p).
Proof.
  change (Z.neg p) with (- Z.pos p)%Z. unfold pow2.
  rewrite powerRZ_neg'. f_equal. apply pow2_Zpos.
Qed.

(** Powers of two with a literal exponent, as literals. *)
#[local] Ltac pow2_literals :=
  repeat match goal with
  | |- context [pow2 ?z] =>
      lazymatch z with
      | Z0 => rewrite pow2_0
      | Z.pos ?p =>
          let c := eval vm_compute in (Z.pow_pos 2 p) in
          rewrite (pow2_Zpos p); change (Z.pow_pos 2 p) with c
      | Z.neg ?p =>
          let c := eval vm_compute in (Z.pow_pos 2 p) in
          rewrite (pow2_Zneg p); change (Z.pow_pos 2 p) with c
      end
  end.

Lemma to_float_IZR n : (Z.abs n <= 16777216)%Z -> to_float (IZR n) = IZR n.
Proof.
  intros Hn. rewrite <- (Rmult_1_r (IZR n)), <- pow2_0.
  by apply round_float_exact.
Qed.

Lemma to_double_IZR n : (Z.abs n <= 9007199254740992)%Z -> to_double (IZR n) = IZR n.
Proof.
  intros Hn. rewrite <- (Rmult_1_r (IZR n)), <- pow2_0.
  by apply round_float_exact.
Qed.

Lemma to_float_dyadic m e :
  (Z.abs m <= 16777216)%Z -> (-149 <= e)%Z ->
  to_float (IZR m * pow2 e) = IZR m * pow2 e.
Proof. intros. by apply round_float_exact. Qed.

(** [to_float v] for a literal [v], from the exponent [e] of the unit in
    its last place and the integer [n] nearest to [v / 2^e], or next below
    it when [v / 2^e] lies halfway between two integers. *)
#[local] Ltac float_binade e :=
  let lo := eval vm_compute in (e + 24 - 1)%Z in
  let hi := eval vm_compute in (e + 24)%Z in
  change (e + 24 - 1)%Z with lo; change (e + 24)%Z with hi;
  first [rewrite Rabs_pos_eq by lra | rewrite Rabs_left by lra];
  pow2_literals; lra.

#[local] Ltac float_near v e n :=
  unfold to_float;
  rewrite (round_float_near 24 (-149) v e n);
  [ pow2_literals | lia | float_binade e | pow2_literals; lra ].

#[local] Ltac float_tie v e n :=
  unfold to_float;
  rewrite (round_float_tie 24 (-149) v e n);
  [ cbv beta iota delta [Z.even]; rewrite ?plus_IZR; pow2_literals
  | lia | float_binade e | pow2_literals; lra ].

(** ** The stages of projectAndDraw *)

Lemma projectAndDraw_stages renderer cubeX cubeY cubeZ ch color :
  projectAndDraw renderer cubeX cubeY cubeZ ch color =
  match project renderer
          (calculatePoint renderer (Ctrunc cubeX) (Ctrunc cubeY) (Ctrunc cubeZ)) with
  | None => renderer
  | Some (xp, yp, ooz) => rasterize renderer xp yp ooz ch color
  end.
Proof.
  unfold projectAndDraw, project, rasterize.
  destruct (Rle_dec _ _); reflexivity.
Qed.

Lemma toward_zero_Ctrunc v n : toward_zero v n -> Ctrunc v = n.
Proof.
  intros [[Hlo Hhi] Hsign].
  destruct (Rle_dec 0 v) as [Hv|Hv].
  - rewrite (Rabs_pos_eq v) in Hlo, Hhi by done.
    destruct (Rle_dec 0 (IZR n)) as [Hn|Hn].
    + rewrite Rabs_pos_eq in Hlo, Hhi by done. by apply Ctrunc_nonneg.
    + rewrite Rabs_left in Hlo, Hhi by lra. nra.
  - rewrite (Rabs_left v) in Hlo, Hhi by lra.
    destruct (Rle_dec (IZR n) 0) as [Hn|Hn].
    + rewrite Rabs_left1 in Hlo, Hhi by done. apply Ctrunc_neg; lra.
    + rewrite Rabs_pos_eq in Hlo, Hhi by lra. nra.
Qed.

Lemma toward_zero_intro v n :
  (0 <= v /\ IZR n <= v < IZR n + 1) \/ (v <= 0 /\ IZR n - 1 < v <= IZR n) ->
  toward_zero v n.
Proof.
  intros H.
  assert (HT : Ctrunc v = n).
  { destruct H as [[Hv Hn]|[Hv Hn]].
    - by apply Ctrunc_nonneg.
    - destruct (Req_dec v 0) as [->|Hne].
      + destruct Hn as [Hlo Hhi].
        assert (Hlt : IZR n < 1) by lra.
        apply (lt_IZR n 1) in Hlt. apply (le_IZR 0 n) in Hhi.
        replace n with 0%Z by lia. apply Ctrunc_IZR.
      + apply Ctrunc_neg; lra. }
  rewrite <- HT. apply Ctrunc_toward_zero.
Qed.

(** ** The rotation transform *)

Lemma to_float_0 : to_float 0 = 0.
Proof. apply round_float_0. Qed.

Lemma to_double_0 : to_double 0 = 0.
Proof. apply round_float_0. Qed.

Lemma to_float_idempotent v : to_float (to_float v) = to_float v.
Proof. by apply round_float_idempotent. Qed.

Lemma libm_sin_0 : libm.sin 0 = 0.
Proof. unfold libm.sin. by rewrite sin_0, to_double_0. Qed.

Lemma libm_cos_0 : libm.cos 0 = 1.
Proof. unfold libm.cos. rewrite cos_0. apply (to_double_IZR 1). lia. Qed.

(** At zero angles every product and every sum of [calculatePoint] is exact
    in [double]; what is left is the conversion of the three sums to
    [float]. *)
Lemma calculatePoint_zero_angles renderer i j k :
  A renderer = 0 -> B renderer = 0 -> C renderer = 0 ->
  (Z.abs i <= 2 ^ 53)%Z -> (Z.abs j <= 2 ^ 53)%Z -> (Z.abs k <= 2 ^ 53)%Z ->
  calculatePoint renderer i j k =
    {| x := to_float (IZR i); y := to_float (IZR j); z := to_float (IZR k) |}.
Proof.
  intros HA HB HC Hi Hj Hk. unfold calculatePoint. cbv zeta.
  rewrite HA, HB, HC, libm_sin_0, libm_cos_0.
  unfold dmul, dadd, dsub.
  repeat first
    [ rewrite Rmult_0_r | rewrite Rmult_0_l | rewrite Rmult_1_r
    | rewrite Rplus_0_r | rewrite Rplus_0_l | rewrite Rminus_0_r
    | rewrite to_double_0 | rewrite to_double_IZR by lia ].
  done.
Qed.

(** C7, as the code has it. With the three angles at zero
    [calculatePoint] maps the ints [i], [j], [k] to the point whose
    coordinates are these ints converted to [float]. The conversion changes
    no int of magnitude up to 2^24 = 16777216, so that for these the
    transform is the identity, with exactly the coordinates [i], [j],
    [k]. *)
Theorem calculatePoint_identity (renderer : CubeRenderer) (i j k : Z) :
  A renderer = 0 -> B renderer = 0 -> C renderer = 0 ->
  int_value i -> int_value j -> int_value k ->
  calculatePoint renderer i j k =
    {| x := to_float (IZR i); y := to_float (IZR j); z := to_float (IZR k) |} /\
  ((Z.abs i <= 2 ^ 24)%Z -> (Z.abs j <= 2 ^ 24)%Z -> (Z.abs k <= 2 ^ 24)%Z ->
   calculatePoint renderer i j k = {| x := IZR i; y := IZR j; z := IZR k |}).
Proof.
  unfold int_value. intros HA HB HC Hi Hj Hk.
  assert (Hpoint : calculatePoint renderer i j k =
    {| x := to_float (IZR i); y := to_float (IZR j); z := to_float (IZR k) |}).
  { apply calculatePoint_zero_angles; try done; lia. }
  split; [exact Hpoint|].
  intros Hi' Hj' Hk'. rewrite Hpoint.
  by rewrite !to_float_IZR by lia.
Qed.

Lemma calculatePoint_identity_witness :
  A sample_renderer = 0 /\ B sample_renderer = 0 /\ C sample_renderer = 0 /\
  int_value 3 /\ int_value (-2) /\ int_value 7 /\
  calculatePoint sample_renderer 3 (-2) 7 = {| x := 3; y := -2; z := 7 |}.
Proof.
  repeat split; try reflexivity; try (unfold int_value; lia).
  apply (calculatePoint_identity sample_renderer 3 (-2) 7);
    try reflexivity; unfold int_value; lia.
Defined.

Lemma to_float_16777217 : to_float 16777217 = 16777216.
Proof. float_tie 16777217%R 1%Z 8388608%Z. lra. Qed.

(** C7 as the specification words it fails beyond 2^24: 16777217 is no
    [float], the field [x] receives 16777216. *)
Lemma calculatePoint_identity_counterexample :
  A sample_renderer = 0 /\ B sample_renderer = 0 /\ C sample_renderer = 0 /\
  int_value 16777217 /\
  calculatePoint sample_renderer 16777217 0 0 =
    {| x := 16777216; y := 0; z := 0 |} /\
  calculatePoint sample_renderer 16777217 0 0 <>
    {| x := 16777217; y := 0; z := 0 |}.
Proof.
  repeat split; try reflexivity; try (unfold int_value; lia).
  - rewrite calculatePoint_zero_angles by (try reflexivity; lia).
    by rewrite to_float_0, to_float_16777217.
  - rewrite calculatePoint_zero_angles by (try reflexivity; lia).
    rewrite to_float_16777217. intros Heq. injection Heq as Hx. lra.
Qed.

(** ** The perspective projector *)

(** [0.001f] is 8589935 / 2^33 = 0.001000000047497451..., the [float]
    nearest to 0.001 and a little above it. *)
Lemma to_float_0_001 : to_float 0.001 = 8589935 / 8589934592.
Proof. float_near 0.001%R (-33)%Z 8589935%Z. lra. Qed.

(** [to_float v] for an expression [v] whose value is the integer [n]. *)
#[local] Ltac float_exact v n :=
  replace (to_float v) with (IZR n)
    by (symmetry; replace v with (IZR n) by lra; apply to_float_IZR; lia).

Lemma fmul_0_r a : a ⊗ 0 = 0.
Proof. unfold fmul. by rewrite Rmult_0_r, to_float_0. Qed.

Lemma fmul_0_l a : 0 ⊗ a = 0.
Proof. unfold fmul. by rewrite Rmult_0_l, to_float_0. Qed.

(** [to_float v] for an expression [v] whose value is [m * 2^e]. *)
#[local] Ltac float_dyadic v m e :=
  replace (to_float v) with (IZR m * pow2 e)
    by (symmetry; replace v with (IZR m * pow2 e) by (pow2_literals; lra);
        apply to_float_dyadic; lia).

(** C2, as the code has it. The projector works in [float]: [pz] is the
    rounded sum [z + distanceFromCam] and the threshold is [0.001f], which
    is 8589935 / 2^33. It gives no output exactly when [pz <= 0.001f], the
    value [0.001f] itself included. Above it, where no operation overflows
    and the results fit [int], it gives [ooz], the rounded quotient
    [1 / pz], and the screen coordinates
    [width/2 + horizontalOffset + K1*ooz*x*2] and
    [height/2 + verticalOffset + K1*ooz*y], every operation rounded to
    [float], each cut to an integer toward zero. [projectAndDraw] culls or
    draws the rotated sample as the projector says. *)
Theorem project_culls_iff (renderer : CubeRenderer) (p : Point3D) :
  let pz := z p ⊕ distanceFromCam renderer in
  let ooz := 1 ⊘ pz in
  let screenX := to_float (IZR (width renderer)) ⊘ 2 ⊕ horizontalOffset renderer ⊕
                 K1 renderer ⊗ ooz ⊗ x p ⊗ 2 in
  let screenY := to_float (IZR (height renderer)) ⊘ 2 ⊕ verticalOffset renderer ⊕
                 K1 renderer ⊗ ooz ⊗ y p in
  (project renderer p = None <-> pz <= to_float 0.001) /\
  (pz = to_float 0.001 -> project renderer p = None) /\
  (pz > to_float 0.001 -> project_defined renderer p ->
   exists xp yp : Z,
     project renderer p = Some (xp, yp, ooz) /\
     toward_zero screenX xp /\ toward_zero screenY yp) /\
  to_float 0.001 = 8589935 / 8589934592 /\
  (forall cubeX cubeY cubeZ ch color,
     p = calculatePoint renderer (Ctrunc cubeX) (Ctrunc cubeY) (Ctrunc cubeZ) ->
     projectAndDraw renderer cubeX cubeY cubeZ ch color =
     match project renderer p with
     | None => renderer
     | Some (xp, yp, ooz) => rasterize renderer xp yp ooz ch color
     end).
Proof.
  intros pz ooz screenX screenY.
  assert (Hp : project renderer p =
            if Rle_dec pz (to_float 0.001) then None
            else Some (Ctrunc screenX, Ctrunc screenY, ooz)) by reflexivity.
  split; [|split; [|split; [|split]]].
  - rewrite Hp. destruct (Rle_dec _ _); split; (done || lra).
  - intros Heq. rewrite Hp. destruct (Rle_dec _ _); [done|lra].
  - intros Hgt _. rewrite Hp. destruct (Rle_dec _ _); [lra|].
    eexists _, _. split; [reflexivity|].
    split; apply Ctrunc_toward_zero.
  - exact to_float_0_001.
  - intros cubeX cubeY cubeZ ch color ->. apply projectAndDraw_stages.
Qed.

(** On the 4 x 4 example with [horizontalOffset = 10]: a point at
    [z = -100] is culled; the point (16, -8, 28) has [pz = 128],
    [ooz = 1/128] and the screen coordinates 12 + 10 = 22 and
    2 - 2.5 = -0.5, cut to 22 and 0. *)
Lemma project_culls_iff_witness :
  project sample_renderer {| x := 1; y := 1; z := -100 |} = None /\
  project_defined sample_renderer {| x := 16; y := -8; z := 28 |} /\
  exists xp yp : Z,
    project sample_renderer {| x := 16; y := -8; z := 28 |} =
      Some (xp, yp, 1 / 128) /\
    toward_zero 22 xp /\ toward_zero (- 0.5) yp.
Proof.
  split.
  - destruct (project_culls_iff sample_renderer {| x := 1; y := 1; z := -100 |})
      as (Hcull & _).
    apply Hcull.
    change (z {| x := 1; y := 1; z := -100 |} ⊕ distanceFromCam sample_renderer)
      with (to_float (-100 + 100)).
    float_exact (-100 + 100)%R 0%Z. rewrite to_float_0_001. lra.
  - assert (Hpz : to_float (28 + 100) = 128)
      by (float_exact (28 + 100)%R 128%Z; done).
    assert (Hooz : to_float (1 / 128) = 1 / 128)
      by (float_dyadic (1 / 128)%R 1%Z (-7)%Z; pow2_literals; lra).
    assert (Hk : to_float (40 * (1 / 128)) = 5 / 16)
      by (float_dyadic (40 * (1 / 128))%R 5%Z (-4)%Z; pow2_literals; lra).
    assert (Hkx : to_float (5 / 16 * 16) = 5)
      by (float_exact (5 / 16 * 16)%R 5%Z; done).
    assert (Hkx2 : to_float (5 * 2) = 10)
      by (float_exact (5 * 2)%R 10%Z; done).
    assert (Hky : to_float (5 / 16 * -8) = - 5 / 2)
      by (float_dyadic (5 / 16 * -8)%R (-5)%Z (-1)%Z; pow2_literals; lra).
    assert (Hw : to_float 4 = 4) by (float_exact 4%R 4%Z; done).
    assert (Hw2 : to_float (4 / 2) = 2) by (float_exact (4 / 2)%R 2%Z; done).
    assert (Hcx : to_float (2 + 10) = 12) by (float_exact (2 + 10)%R 12%Z; done).
    assert (Hcy : to_float (2 + 0) = 2) by (float_exact (2 + 0)%R 2%Z; done).
    assert (Hsx : to_float (12 + 10) = 22) by (float_exact (12 + 10)%R 22%Z; done).
    assert (Hsy : to_float (2 + - 5 / 2) = - 0.5)
      by (float_dyadic (2 + - 5 / 2)%R (-1)%Z (-1)%Z; pow2_literals; lra).
    assert (Hdefined : project_defined sample_renderer {| x := 16; y := -8; z := 28 |}).
    { unfold project_defined, int_value, int_range, float_range, FLT_MAX.
      change (z {| x := 16; y := -8; z := 28 |}) with 28.
      change (x {| x := 16; y := -8; z := 28 |}) with 16.
      change (y {| x := 16; y := -8; z := 28 |}) with (-8).
      change (distanceFromCam sample_renderer) with 100.
      change (K1 sample_renderer) with 40.
      change (width sample_renderer) with 4%Z.
      change (height sample_renderer) with 4%Z.
      change (horizontalOffset sample_renderer) with 10.
      change (verticalOffset sample_renderer) with 0.
      cbv zeta. unfold fadd, fdiv, fmul.
      rewrite Hpz, Hooz, Hk, Hkx, Hkx2, Hky, Hw, Hw2, Hcx, Hcy, Hsx, Hsy.
      pow2_literals.
      split; [lia|]. split; [lia|]. split; [|split; lra].
      repeat (apply List.Forall_cons;
              [first [rewrite Rabs_pos_eq by lra | rewrite Rabs_left by lra]; lra|]).
      apply List.Forall_nil. }
    split; [exact Hdefined|].
    destruct (project_culls_iff sample_renderer {| x := 16; y := -8; z := 28 |})
      as (_ & _ & Hout & _).
    change (z {| x := 16; y := -8; z := 28 |}) with 28 in Hout.
    change (x {| x := 16; y := -8; z := 28 |}) with 16 in Hout.
    change (y {| x := 16; y := -8; z := 28 |}) with (-8) in Hout.
    change (distanceFromCam sample_renderer) with 100 in Hout.
    change (K1 sample_renderer) with 40 in Hout.
    change (width sample_renderer) with 4%Z in Hout.
    change (height sample_renderer) with 4%Z in Hout.
    change (horizontalOffset sample_renderer) with 10 in Hout.
    change (verticalOffset sample_renderer) with 0 in Hout.
    unfold fadd, fdiv, fmul in Hout.
    rewrite Hpz, Hooz, Hk, Hkx, Hkx2, Hky, Hw, Hw2, Hcx, Hcy, Hsx, Hsy in Hout.
    apply Hout; [|exact Hdefined]. rewrite to_float_0_001. lra.
Defined.

(** The samples of the bottom face at [cubeWidth = 25] around the lattice
    point (0, -25, 25), at zero angles on the 160 x 44 screen. The formulas
    of C2 in real numbers give [ooz] = 1/125 = 0.008 and the screen
    position (80, 14), since 22 - 40 * 0.008 * 25 = 14. The code gives
    [ooz] = 8589935 / 2^30, the products 40 * ooz = 10737419 / 2^25 and
    - 8388609 / 2^20, the sum 14680063 / 2^20 = 13.999999..., and so the
    row 13. *)
Lemma to_float_1_125 : to_float (1 / 125) = 8589935 / 1073741824.
Proof. float_near (1 / 125)%R (-30)%Z 8589935%Z. lra. Qed.

Lemma project_culls_iff_counterexample :
  let p := calculatePoint default_renderer 0 (-25) 25 in
  let pz := z p + distanceFromCam default_renderer in
  p = {| x := 0; y := -25; z := 25 |} /\
  pz > 0.001 /\
  toward_zero (IZR (width default_renderer) / 2 +
               horizontalOffset default_renderer +
               K1 default_renderer * (1 / pz) * x p * 2) 80 /\
  toward_zero (IZR (height default_renderer) / 2 +
               verticalOffset default_renderer +
               K1 default_renderer * (1 / pz) * y p) 14 /\
  project_defined default_renderer p /\
  project default_renderer p = Some (80%Z, 13%Z, 8589935 / 1073741824) /\
  8589935 / 1073741824 <> 1 / pz.
Proof.
  assert (Hp : calculatePoint default_renderer 0 (-25) 25 =
               {| x := 0; y := -25; z := 25 |}).
  { rewrite calculatePoint_zero_angles by (try reflexivity; lia).
    by rewrite to_float_0, !to_float_IZR by lia. }
  assert (Hpz : to_float (25 + 100) = 125)
    by (float_exact (25 + 100)%R 125%Z; done).
  assert (Hk : to_float (40 * (8589935 / 1073741824)) = 10737419 / 33554432)
    by (float_near (40 * (8589935 / 1073741824))%R (-25)%Z 10737419%Z; lra).
  assert (Hky : to_float (10737419 / 33554432 * -25) = - 8388609 / 1048576)
    by (float_near (10737419 / 33554432 * -25)%R (-20)%Z (-8388609)%Z; lra).
  assert (Hw : to_float 160 = 160) by (float_exact 160%R 160%Z; done).
  assert (Hw2 : to_float (160 / 2) = 80) by (float_exact (160 / 2)%R 80%Z; done).
  assert (Hcx : to_float (80 + 0) = 80) by (float_exact (80 + 0)%R 80%Z; done).
  assert (Hh : to_float 44 = 44) by (float_exact 44%R 44%Z; done).
  assert (Hh2 : to_float (44 / 2) = 22) by (float_exact (44 / 2)%R 22%Z; done).
  assert (Hcy : to_float (22 + 0) = 22) by (float_exact (22 + 0)%R 22%Z; done).
  assert (Hsy : to_float (22 + - 8388609 / 1048576) = 14680063 / 1048576)
    by (float_dyadic (22 + - 8388609 / 1048576)%R 14680063%Z (-20)%Z;
        pow2_literals; lra).
  cbv zeta. rewrite Hp.
  unfold project_defined, project.
  change (z {| x := 0; y := -25; z := 25 |}) with 25.
  change (y {| x := 0; y := -25; z := 25 |}) with (-25).
  change (x {| x := 0; y := -25; z := 25 |}) with 0.
  change (distanceFromCam default_renderer) with 100.
  change (width default_renderer) with 160%Z.
  change (height default_renderer) with 44%Z.
  change (horizontalOffset default_renderer) with 0.
  change (verticalOffset default_renderer) with 0.
  change (K1 default_renderer) with 40.
  cbv zeta. rewrite !fmul_0_r, !fmul_0_l. unfold fadd, fdiv, fmul.
  rewrite Hpz, to_float_1_125, Hk, Hky, Hw, Hw2, !Hcx, Hh, Hh2, Hcy, Hsy.
  rewrite to_float_0_001.
  split; [done|]. split; [lra|].
  split; [apply toward_zero_intro; lra|].
  split; [apply toward_zero_intro; lra|].
  split; [|split; [|lra]].
  - unfold int_value, int_range, float_range, FLT_MAX. pow2_literals.
    split; [lia|]. split; [lia|]. split; [|split; lra].
    repeat (apply List.Forall_cons;
            [first [rewrite Rabs_pos_eq by lra | rewrite Rabs_left by lra]; lra|]).
    apply List.Forall_nil.
  - destruct (Rle_dec _ _); [lra|].
    rewrite (Ctrunc_IZR 80).
    rewrite (Ctrunc_nonneg (14680063 / 1048576) 13) by lra.
    done.
Qed.

(** ** Truncation of the sample coordinates *)

(** C9. [projectAndDraw] cuts its three coordinates to integers toward zero
    before it rotates them: for samples whose coordinates cut to the
    lattice point [(i, j, k)], three values of [int], it rotates
    [(i, j, k)], and projects and draws what [calculatePoint] makes of this
    lattice point. Two such samples are therefore rotated to the same point
    and drawn alike, namely as the lattice point itself is. *)
Theorem projectAndDraw_truncates (renderer : CubeRenderer)
    (x1 y1 z1 x2 y2 z2 : R) (i j k : Z) (ch : ascii) (color : string) :
  int_value i -> int_value j -> int_value k ->
  toward_zero x1 i -> toward_zero y1 j -> toward_zero z1 k ->
  toward_zero x2 i -> toward_zero y2 j -> toward_zero z2 k ->
  projectAndDraw renderer x1 y1 z1 ch color =
    match project renderer (calculatePoint renderer i j k) with
    | None => renderer
    | Some (xp, yp, ooz) => rasterize renderer xp yp ooz ch color
    end /\
  calculatePoint renderer (Ctrunc x1) (Ctrunc y1) (Ctrunc z1) =
    calculatePoint renderer i j k /\
  calculatePoint renderer (Ctrunc x2) (Ctrunc y2) (Ctrunc z2) =
    calculatePoint renderer i j k /\
  projectAndDraw renderer x1 y1 z1 ch color =
    projectAndDraw renderer x2 y2 z2 ch color /\
  projectAndDraw renderer x1 y1 z1 ch color =
    projectAndDraw renderer (IZR i) (IZR j) (IZR k) ch color.
Proof.
  intros _ _ _ Hx1 Hy1 Hz1 Hx2 Hy2 Hz2.
  apply toward_zero_Ctrunc in Hx1, Hy1, Hz1, Hx2, Hy2, Hz2.
  rewrite !projectAndDraw_stages.
  rewrite !Ctrunc_IZR, Hx1, Hy1, Hz1, Hx2, Hy2, Hz2. done.
Qed.

(** ** Key handling *)

Lemma press_grow renderer c :
  grow_key c ->
  cubeWidth (press renderer c) =
  to_float (libm.fmin (cubeWidth renderer ⊕ 1) MAX_CUBE_WIDTH).
Proof. by intros [-> | ->]. Qed.

Lemma press_shrink renderer c :
  shrink_key c ->
  cubeWidth (press renderer c) =
  to_float (libm.fmax (cubeWidth renderer ⊖ 1) MIN_CUBE_WIDTH).
Proof. by intros [-> | ->]. Qed.

(** Below 64 a [float] is at most 2^-19 away from the number it was rounded
    from: half a unit in the last place of the numbers from 32 to 64. *)
Lemma to_float_error_64 v : Rabs v < 64 -> Rabs (to_float v - v) <= pow2 (-19).
Proof.
  intros Hv. destruct (Req_dec v 0) as [->|Hne].
  { rewrite to_float_0, Rminus_0_r, Rabs_R0. left. apply pow2_pos. }
  eapply Rle_trans; [apply round_float_error|].
  destruct (mag2_spec v Hne) as [Hlo _].
  assert (Hmag : (mag2 v < 6)%Z).
  { apply pow2_lt_inv. eapply Rle_lt_trans; [exact Hlo|].
    pow2_literals. lra. }
  assert (Hle : pow2 (Z.max (mag2 v - 24 + 1) (-149)) <= pow2 (-18))
    by (apply pow2_le; lia).
  revert Hle. pow2_literals. lra.
Qed.

Lemma press_size_key_range renderer c :
  grow_key c \/ shrink_key c ->
  MIN_CUBE_WIDTH <= cubeWidth renderer <= MAX_CUBE_WIDTH ->
  MIN_CUBE_WIDTH <= cubeWidth (press renderer c) <= MAX_CUBE_WIDTH /\
  Rabs (cubeWidth (press renderer c) - cubeWidth renderer) <= 1 + pow2 (-19).
Proof.
  unfold MIN_CUBE_WIDTH, MAX_CUBE_WIDTH. intros [Hc | Hc] Hr.
  - rewrite (press_grow _ _ Hc). unfold libm.fmin, Rmin, MAX_CUBE_WIDTH, fadd.
    pose proof (to_float_error_64 (cubeWidth renderer + 1)) as Herr.
    apply Rabs_le_bounds in Herr; [|apply Rabs_def1; lra].
    revert Herr. pow2_literals. intros Herr.
    destruct (Rle_dec _ _).
    + rewrite to_float_idempotent. split; [lra|]. apply Rabs_le. lra.
    + rewrite (to_float_IZR 50) by lia. split; [lra|]. apply Rabs_le. lra.
  - rewrite (press_shrink _ _ Hc). unfold libm.fmax, Rmax, MIN_CUBE_WIDTH, fsub.
    pose proof (to_float_error_64 (cubeWidth renderer - 1)) as Herr.
    apply Rabs_le_bounds in Herr; [|apply Rabs_def1; lra].
    revert Herr. pow2_literals. intros Herr.
    destruct (Rle_dec _ _).
    + rewrite (to_float_IZR 5) by lia. split; [lra|]. apply Rabs_le. lra.
    + rewrite to_float_idempotent. split; [lra|]. apply Rabs_le. lra.
Qed.

(** From a whole width the sum or difference is exact. *)
Lemma press_size_key_whole renderer c n :
  grow_key c \/ shrink_key c ->
  MIN_CUBE_WIDTH <= cubeWidth renderer <= MAX_CUBE_WIDTH ->
  cubeWidth renderer = IZR n ->
  (exists n', cubeWidth (press renderer c) = IZR n') /\
  Rabs (cubeWidth (press renderer c) - cubeWidth renderer) <= 1.
Proof.
  unfold MIN_CUBE_WIDTH, MAX_CUBE_WIDTH. intros [Hc | Hc] Hr Hn.
  - rewrite (press_grow _ _ Hc), Hn in *.
    unfold libm.fmin, Rmin, MAX_CUBE_WIDTH, fadd.
    assert (5 <= n <= 50)%Z by (split; apply le_IZR; lra).
    rewrite <- (plus_IZR n 1), to_float_IZR by lia.
    destruct (Rle_dec _ _) as [Hle|Hgt].
    + rewrite to_float_IZR by lia. split; [by eexists|].
      rewrite plus_IZR. apply Rabs_le. lra.
    + rewrite (to_float_IZR 50) by lia. split; [by exists 50%Z|].
      rewrite plus_IZR in Hgt. apply Rabs_le. lra.
  - rewrite (press_shrink _ _ Hc), Hn in *.
    unfold libm.fmax, Rmax, MIN_CUBE_WIDTH, fsub.
    assert (5 <= n <= 50)%Z by (split; apply le_IZR; lra).
    rewrite <- (minus_IZR n 1), to_float_IZR by lia.
    destruct (Rle_dec _ _) as [Hle|Hgt].
    + rewrite (to_float_IZR 5) by lia. split; [by exists 5%Z|].
      rewrite minus_IZR in Hle. apply Rabs_le. lra.
    + rewrite to_float_IZR by lia. split; [by eexists|].
      rewrite minus_IZR. apply Rabs_le. lra.
Qed.

Lemma press_all_snoc renderer keys c :
  press_all renderer (keys ++ [c]) = press (press_all renderer keys) c.
Proof. unfold press_all. by rewrite foldl_app. Qed.

Lemma press_all_range renderer keys :
  Forall (fun c => grow_key c \/ shrink_key c) keys ->
  MIN_CUBE_WIDTH <= cubeWidth renderer <= MAX_CUBE_WIDTH ->
  MIN_CUBE_WIDTH <= cubeWidth (press_all renderer keys) <= MAX_CUBE_WIDTH.
Proof.
  induction keys as [|k keys IH] using rev_ind; intros Hkeys Hr; [done|].
  apply Forall_app in Hkeys as [Hkeys Hk%Forall_inv].
  rewrite press_all_snoc. by apply press_size_key_range, IH.
Qed.

Lemma press_all_whole renderer keys :
  Forall (fun c => grow_key c \/ shrink_key c) keys ->
  MIN_CUBE_WIDTH <= cubeWidth renderer <= MAX_CUBE_WIDTH ->
  (exists n, cubeWidth renderer = IZR n) ->
  exists n, cubeWidth (press_all renderer keys) = IZR n.
Proof.
  induction keys as [|k keys IH] using rev_ind; intros Hkeys Hr Hn; [done|].
  apply Forall_app in Hkeys as [Hkeys Hk%Forall_inv].
  rewrite press_all_snoc.
  destruct (IH Hkeys Hr Hn) as [n' Hn'].
  eapply press_size_key_whole; [done| |exact Hn'].
  by apply press_all_range.
Qed.

(** C6, as the code has it. From a cube width between 5 and 50, a run of
    grow keys ('+', '=') of any length leaves the width at most 50 and a
    run of shrink keys ('-', '_') of any length leaves it at least 5. Each
    key of such a run moves the width by at most 1 + 2^-19, the sum
    [cubeWidth + 1.0f] or the difference [cubeWidth - 1.0f] being rounded to
    [float], and by at most 1 when the run starts from a whole width, as
    the widths of the program are. *)
Theorem cubeWidth_clamped (renderer : CubeRenderer) (keys : list ascii) :
  MIN_CUBE_WIDTH <= cubeWidth renderer <= MAX_CUBE_WIDTH ->
  (Forall grow_key keys -> cubeWidth (press_all renderer keys) <= 50) /\
  (Forall shrink_key keys -> 5 <= cubeWidth (press_all renderer keys)) /\
  (Forall grow_key keys \/ Forall shrink_key keys ->
   forall before c after, keys = before ++ c :: after ->
     Rabs (cubeWidth (press_all renderer (before ++ [c])) -
           cubeWidth (press_all renderer before)) <= 1 + pow2 (-19) /\
     ((exists n : Z, cubeWidth renderer = IZR n) ->
      Rabs (cubeWidth (press_all renderer (before ++ [c])) -
            cubeWidth (press_all renderer before)) <= 1)).
Proof.
  intros Hr.
  assert (Hmixed : Forall grow_key keys \/ Forall shrink_key keys ->
            Forall (fun c => grow_key c \/ shrink_key c) keys).
  { intros [H | H]; eapply Forall_impl; eauto; simpl; auto. }
  split; [|split].
  - intros H. destruct (press_all_range renderer keys) as [_ Hhi]; auto.
  - intros H. destruct (press_all_range renderer keys) as [Hlo _]; auto.
  - intros H before c after ->. apply Hmixed in H.
    apply Forall_app in H as [Hbefore Hc%Forall_inv].
    rewrite press_all_snoc. split.
    + by apply press_size_key_range, press_all_range.
    + intros Hn.
      destruct (press_all_whole renderer before Hbefore Hr Hn) as [n' Hn'].
      eapply press_size_key_whole; [done| |exact Hn'].
      by apply press_all_range.
Qed.

#[local] Ltac all_keys :=
  repeat first
    [ apply List.Forall_nil
    | apply List.Forall_cons; [(by left) || (by right)|] ].

Lemma cubeWidth_clamped_witness :
  MIN_CUBE_WIDTH <= cubeWidth sample_renderer <= MAX_CUBE_WIDTH /\
  cubeWidth (press_all sample_renderer ["+"; "="; "+"]%char) <= 50 /\
  5 <= cubeWidth (press_all sample_renderer ["-"; "_"]%char) /\
  Rabs (cubeWidth (press_all sample_renderer (["+"] ++ ["="])%char) -
        cubeWidth (press_all sample_renderer ["+"]%char)) <= 1.
Proof.
  assert (Hr : MIN_CUBE_WIDTH <= cubeWidth sample_renderer <= MAX_CUBE_WIDTH).
  { unfold MIN_CUBE_WIDTH, MAX_CUBE_WIDTH.
    change (cubeWidth sample_renderer) with 10. lra. }
  split; [exact Hr|]. split; [|split].
  - apply (cubeWidth_clamped sample_renderer ["+"; "="; "+"]%char Hr).
    all_keys.
  - apply (cubeWidth_clamped sample_renderer ["-"; "_"]%char Hr).
    all_keys.
  - apply (proj2 (proj2 (cubeWidth_clamped sample_renderer ["+"; "="; "+"]%char Hr)))
      with (after := ["+"%char]); [|reflexivity|by exists 10%Z].
    left. all_keys.
Defined.

(** C6 as the specification words it fails in its last part: 32 - 2^-19 is
    a [float] between 5 and 50, the sum 33 - 2^-19 lies halfway between
    the [float]s 33 - 2^-18 and 33 and is rounded to 33, and so a '+' moves
    the width by 1 + 2^-19. *)
Lemma to_float_below_33 : to_float (16777215 / 524288 + 1) = 33.
Proof. float_tie (16777215 / 524288 + 1)%R (-18)%Z 8650751%Z. lra. Qed.

Lemma cubeWidth_clamped_counterexample :
  MIN_CUBE_WIDTH <= cubeWidth fine_renderer <= MAX_CUBE_WIDTH /\
  to_float (cubeWidth fine_renderer) = cubeWidth fine_renderer /\
  grow_key "+"%char /\
  cubeWidth (press_all fine_renderer ([] ++ ["+"%char])) = 33 /\
  Rabs (cubeWidth (press_all fine_renderer ([] ++ ["+"%char])) -
        cubeWidth (press_all fine_renderer [])) > 1.
Proof.
  assert (Hpress : cubeWidth (press_all fine_renderer ([] ++ ["+"%char])) = 33).
  { change (cubeWidth (press_all fine_renderer ([] ++ ["+"%char])))
      with (to_float (Rmin (to_float (16777215 / 524288 + 1)) 50)).
    rewrite to_float_below_33, Rmin_left by lra.
    apply (to_float_IZR 33). lia. }
  rewrite Hpress.
  change (cubeWidth (press_all fine_renderer [])) with (16777215 / 524288).
  change (cubeWidth fine_renderer) with (16777215 / 524288).
  unfold MIN_CUBE_WIDTH, MAX_CUBE_WIDTH.
  split; [lra|]. split; [|split; [by left|split; [done|]]].
  - replace (16777215 / 524288) with (IZR 16777215 * pow2 (-19))
      by (pow2_literals; lra).
    apply to_float_dyadic; lia.
  - rewrite Rabs_pos_eq by lra. lra.
Qed.

(** ** Construction and start-up *)

Lemma createRenderer_failure width height h :
  allocation_fails h ->
  exists h', createRenderer width height h = (None, h') /\ live h' = live h.
Proof.
  destruct h as [lv vs jk]. unfold allocation_fails, createRenderer, alloc. simpl.
  intros Hfail.
  destruct vs as [|[] [|[] [|[] [|[] vs]]]]; simpl in *;
    try (exfalso; naive_solver);
    eexists; (split; [reflexivity|]); simpl; try reflexivity.
  all: pose proof (is_fresh lv);
       pose proof (is_fresh ({[fresh lv]} ∪ lv));
       pose proof (is_fresh ({[fresh ({[fresh lv]} ∪ lv)]} ∪ ({[fresh lv]} ∪ lv)));
       set_solver.
Qed.

Lemma createRenderer_success width height h :
  ~ allocation_fails h ->
  exists blocks h',
    createRenderer width height h =
      (Some (mkRenderer 0 0 0 DEFAULT_CUBE_WIDTH width height
               (replicate (Z.to_nat (width * height)) 0)
               (junk h <$> seq 0 (Z.to_nat (width * height)))
               (replicate (Z.to_nat (width * height)) None)
               " "%char DEFAULT_DISTANCE 0 0 DEFAULT_K1 DEFAULT_INCREMENT,
             blocks), h').
Proof.
  destruct h as [lv vs jk]. unfold allocation_fails, createRenderer, alloc. simpl.
  intros Hok.
  destruct vs as [|[] [|[] [|[] [|[] vs]]]]; simpl in *;
    try (exfalso; apply Hok; naive_solver);
    eexists _, _; reflexivity.
Qed.

(** C4. When its allocations are granted, [main] builds the renderer with
    width 160 and height 44 and enters the game loop with [cubeWidth] set to
    10 and [horizontalOffset] equal to [cubeWidth]. *)
Theorem main_startup (fuel : nat) (keys : list (option ascii)) (h : heap) :
  ~ allocation_fails h ->
  exists renderer blocks h',
    createRenderer DEFAULT_WIDTH DEFAULT_HEIGHT h = (Some (renderer, blocks), h') /\
    main fuel keys h =
      match gameLoop fuel keys (main_setup renderer) [] with
      | Some (final, frames) =>
          Some (0%Z, destroyRenderer (Some (final, blocks)) h',
                [String ESC "[2J"; String ESC "[36m"] ++ frames ++
                [RESET; String ESC "[2J"; HOME])
      | None => None
      end /\
    width (main_setup renderer) = 160%Z /\
    height (main_setup renderer) = 44%Z /\
    cubeWidth (main_setup renderer) = 10 /\
    horizontalOffset (main_setup renderer) = cubeWidth (main_setup renderer).
Proof.
  intros Hok.
  destruct (createRenderer_success DEFAULT_WIDTH DEFAULT_HEIGHT h Hok)
    as (blocks & h' & Hcreate).
  eexists _, blocks, h'. split; [exact Hcreate|].
  split.
  - unfold main. rewrite Hcreate. cbv beta iota.
    destruct (gameLoop _ _ _ _) as [[final frames]|]; reflexivity.
  - repeat split; reflexivity.
Qed.

Lemma main_startup_witness :
  ~ allocation_fails idle_heap /\
  exists renderer blocks h',
    createRenderer DEFAULT_WIDTH DEFAULT_HEIGHT idle_heap =
      (Some (renderer, blocks), h') /\
    width (main_setup renderer) = 160%Z /\
    height (main_setup renderer) = 44%Z /\
    cubeWidth (main_setup renderer) = 10 /\
    horizontalOffset (main_setup renderer) = cubeWidth (main_setup renderer).
Proof.
  assert (Hok : ~ allocation_fails idle_heap).
  { unfold allocation_fails, idle_heap; simpl. naive_solver. }
  split; [exact Hok|].
  destruct (main_startup 0 [] idle_heap Hok)
    as (renderer & blocks & h' & Hcreate & _ & Hrest).
  by exists renderer, blocks, h'.
Defined.

(** C8. When one of the allocations of [createRenderer] is refused, the
    constructor returns [NULL] and leaves allocated exactly the blocks that
    were allocated before the call, so that every block it obtained has
    been freed; [main] then ends with exit status 1. *)
Theorem createRenderer_all_or_nothing (width height : Z) (h : heap)
    (fuel : nat) (keys : list (option ascii)) :
  allocation_fails h ->
  (exists h', createRenderer width height h = (None, h') /\ live h' = live h) /\
  (exists h' out, main fuel keys h = Some (1%Z, h', out) /\ live h' = live h).
Proof.
  intros Hfail. split.
  - by apply createRenderer_failure.
  - destruct (createRenderer_failure DEFAULT_WIDTH DEFAULT_HEIGHT h Hfail)
      as (h' & Hcreate & Hlive).
    exists h'. eexists. unfold main. rewrite Hcreate. done.
Qed.

Lemma createRenderer_all_or_nothing_witness :
  allocation_fails sample_heap /\
  (exists h', createRenderer 160 44 sample_heap = (None, h') /\
              live h' = live sample_heap) /\
  (exists h' out, main 0 [] sample_heap = Some (1%Z, h', out) /\
                  live h' = live sample_heap).
Proof.
  assert (Hfail : allocation_fails sample_heap).
  { right. split; [discriminate|]. right. by left. }
  split; [exact Hfail|].
  exact (createRenderer_all_or_nothing 160 44 sample_heap 0 [] Hfail).
Defined.

(** ** The depth-tested rasterizer *)

Lemma rasterize_win renderer xp yp ooz ch color :
  on_screen renderer xp yp ->
  ooz > zBuffer renderer !!! Z.to_nat (pixel_index renderer xp yp) ->
  rasterize renderer xp yp ooz ch color =
  set_cell renderer (Z.to_nat (pixel_index renderer xp yp)) ooz ch (Some color).
Proof.
  unfold on_screen, pixel_index, rasterize. intros [Hlo Hhi] Hwin.
  rewrite !bool_decide_eq_true_2 by done. simpl.
  by destruct (Rgt_dec _ _).
Qed.

Lemma rasterize_keep renderer xp yp ooz ch color :
  ooz <= zBuffer renderer !!! Z.to_nat (pixel_index renderer xp yp) ->
  rasterize renderer xp yp ooz ch color = renderer.
Proof.
  unfold pixel_index, rasterize. intros Hkeep.
  destruct (_ && _); [|done].
  destruct (Rgt_dec _ _); [lra|done].
Qed.

Lemma rasterize_off_screen renderer xp yp ooz ch color :
  ~ on_screen renderer xp yp ->
  rasterize renderer xp yp ooz ch color = renderer.
Proof.
  unfold on_screen, pixel_index, rasterize. intros Hoff.
  destruct (bool_decide (0 <= _)%Z) eqn:Hlo; [|done].
  destruct (bool_decide (_ < _)%Z) eqn:Hhi; [|done].
  apply bool_decide_eq_true in Hlo, Hhi. lia.
Qed.

Lemma on_screen_cell renderer xp yp :
  on_screen renderer xp yp ->
  (Z.to_nat (pixel_index renderer xp yp) < cells renderer)%nat.
Proof. unfold on_screen, cells. lia. Qed.

Lemma set_cell_well_formed renderer n ooz ch color :
  well_formed renderer -> well_formed (set_cell renderer n ooz ch color).
Proof.
  unfold well_formed, cells. simpl. by rewrite !length_insert.
Qed.

Lemma pixel_set_cell renderer n ooz ch color :
  well_formed renderer -> (n < cells renderer)%nat ->
  pixel (set_cell renderer n ooz ch color) n = (Some ooz, Some ch, Some color).
Proof.
  intros (Hz & Hb & Hc) Hn. unfold pixel. simpl.
  by rewrite !list_lookup_insert_eq by lia.
Qed.

Lemma pixel_set_cell_ne renderer n ooz ch color i :
  i ≠ n -> pixel (set_cell renderer n ooz ch color) i = pixel renderer i.
Proof.
  intros Hne. unfold pixel. simpl.
  by rewrite !list_lookup_insert_ne by done.
Qed.

Lemma rasterize_well_formed renderer xp yp ooz ch color :
  well_formed renderer -> well_formed (rasterize renderer xp yp ooz ch color).
Proof.
  intros Hwf. unfold rasterize.
  destruct (_ && _); [|done].
  destruct (Rgt_dec _ _); [|done].
  by apply set_cell_well_formed.
Qed.

Lemma rasterize_width renderer xp yp ooz ch color :
  width (rasterize renderer xp yp ooz ch color) = width renderer /\
  height (rasterize renderer xp yp ooz ch color) = height renderer.
Proof.
  unfold rasterize.
  destruct (_ && _); [|done].
  by destruct (Rgt_dec _ _).
Qed.

Lemma depth_at renderer n :
  well_formed renderer -> (n < cells renderer)%nat ->
  zBuffer renderer !! n = Some (zBuffer renderer !!! n).
Proof.
  intros (Hz & _) Hn. apply list_lookup_lookup_total_lt. lia.
Qed.

(** One submission to a pixel of the screen: when it is strictly closer
    than the stored sample the three cells are written together, otherwise
    the renderer stays as it is. *)
Lemma rasterize_pixel renderer xp yp ooz ch color :
  well_formed renderer -> on_screen renderer xp yp ->
  let n := Z.to_nat (pixel_index renderer xp yp) in
  (ooz > zBuffer renderer !!! n ->
   pixel (rasterize renderer xp yp ooz ch color) n =
     (Some ooz, Some ch, Some (Some color))) /\
  (ooz <= zBuffer renderer !!! n ->
   rasterize renderer xp yp ooz ch color = renderer).
Proof.
  intros Hwf Hon n. split.
  - intros Hwin. rewrite rasterize_win by done.
    by apply pixel_set_cell, on_screen_cell.
  - apply rasterize_keep.
Qed.

Lemma pixel_index_rasterize renderer xp yp ooz ch color xp' yp' :
  pixel_index (rasterize renderer xp yp ooz ch color) xp' yp' =
  pixel_index renderer xp' yp'.
Proof.
  unfold pixel_index. by rewrite (proj1 (rasterize_width _ _ _ _ _ _)).
Qed.

Lemma on_screen_rasterize renderer xp yp ooz ch color xp' yp' :
  on_screen renderer xp' yp' ->
  on_screen (rasterize renderer xp yp ooz ch color) xp' yp'.
Proof.
  unfold on_screen. rewrite pixel_index_rasterize.
  by destruct (rasterize_width renderer xp yp ooz ch color) as [-> ->].
Qed.

(** The depth cell of a pixel after one submission to it. *)
Lemma rasterize_depth renderer xp yp ooz ch color :
  well_formed renderer -> on_screen renderer xp yp ->
  let n := Z.to_nat (pixel_index renderer xp yp) in
  zBuffer (rasterize renderer xp yp ooz ch color) !!! n =
  Rmax ooz (zBuffer renderer !!! n).
Proof.
  intros Hwf Hon n. subst n. unfold Rmax.
  destruct (Rle_dec ooz _) as [Hle|Hgt].
  - by rewrite rasterize_keep.
  - rewrite rasterize_win by (done || lra). simpl.
    apply list_lookup_total_insert_eq.
    destruct Hwf as (-> & _). by apply on_screen_cell.
Qed.

(** C1, as the code has it. Two submissions to one pixel of the screen,
    the first named one strictly closer ([ooz1 > ooz2]): in either order
    the pixel ends with the depth, glyph and colour of the [ooz1]
    submission, provided [ooz1] is strictly greater than the depth the
    pixel held before the two; otherwise the pixel keeps what it held. A
    single submission writes the three cells together when its [ooz] is
    strictly greater than the stored depth and changes nothing otherwise,
    so on a tie the stored sample stays. *)
Theorem depth_test (renderer : CubeRenderer) (xp1 yp1 xp2 yp2 : Z)
    (ooz1 ooz2 : R) (ch1 ch2 : ascii) (color1 color2 : string) :
  well_formed renderer ->
  on_screen renderer xp1 yp1 ->
  pixel_index renderer xp1 yp1 = pixel_index renderer xp2 yp2 ->
  ooz1 > ooz2 ->
  let n := Z.to_nat (pixel_index renderer xp1 yp1) in
  let stored := zBuffer renderer !!! n in
  let first12 := rasterize renderer xp1 yp1 ooz1 ch1 color1 in
  let first21 := rasterize renderer xp2 yp2 ooz2 ch2 color2 in
  let final12 := rasterize first12 xp2 yp2 ooz2 ch2 color2 in
  let final21 := rasterize first21 xp1 yp1 ooz1 ch1 color1 in
  (ooz1 > stored ->
   pixel final12 n = (Some ooz1, Some ch1, Some (Some color1)) /\
   pixel final21 n = (Some ooz1, Some ch1, Some (Some color1))) /\
  (ooz1 <= stored -> final12 = renderer /\ final21 = renderer) /\
  (forall xp yp ooz ch color,
     on_screen renderer xp yp ->
     let m := Z.to_nat (pixel_index renderer xp yp) in
     (ooz > zBuffer renderer !!! m ->
      pixel (rasterize renderer xp yp ooz ch color) m =
        (Some ooz, Some ch, Some (Some color))) /\
     (ooz <= zBuffer renderer !!! m ->
      rasterize renderer xp yp ooz ch color = renderer)).
Proof.
  intros Hwf Hon Hsame Hcloser. cbv zeta.
  assert (Hon2 : on_screen renderer xp2 yp2).
  { unfold on_screen in *. by rewrite <- Hsame. }
  destruct (rasterize_pixel renderer xp1 yp1 ooz1 ch1 color1 Hwf Hon)
    as [Hwin1 Hkeep1].
  split; [|split]; [| |by intros; apply rasterize_pixel].
  - intros Hgt. split.
    + (* the closer sample first: the farther one loses against it *)
      rewrite (rasterize_keep (rasterize _ _ _ _ _ _)); [by apply Hwin1|].
      rewrite pixel_index_rasterize, <- Hsame, rasterize_depth by done.
      unfold Rmax. destruct (Rle_dec _ _); lra.
    + (* the farther sample first: whatever it did, the closer one wins *)
      pose proof (rasterize_pixel (rasterize renderer xp2 yp2 ooz2 ch2 color2)
                    xp1 yp1 ooz1 ch1 color1
                    (rasterize_well_formed _ _ _ _ _ _ Hwf)
                    (on_screen_rasterize _ _ _ _ _ _ _ _ Hon)) as [Hwin _].
      rewrite !pixel_index_rasterize in Hwin. apply Hwin.
      rewrite Hsame, rasterize_depth by done.
      unfold Rmax. rewrite <- Hsame. destruct (Rle_dec _ _); lra.
  - intros Hle.
    rewrite (Hkeep1 Hle), (rasterize_keep renderer xp2 yp2).
    + by rewrite (Hkeep1 Hle).
    + rewrite <- Hsame. lra.
Qed.

(** The 4 x 4 example screen is the one [clearBuffers] leaves. *)
Lemma sample_renderer_cleared : clearBuffers sample_renderer = sample_renderer.
Proof. reflexivity. Qed.

Lemma sample_renderer_well_formed : well_formed sample_renderer.
Proof. by repeat split. Qed.

#[local] Ltac on_sample_screen :=
  unfold on_screen, pixel_index; simpl; lia.

Lemma depth_test_witness :
  let final12 := rasterize (rasterize sample_renderer 1 1 2 "a" RED) 1 1 1 "b" GREEN in
  let final21 := rasterize (rasterize sample_renderer 1 1 1 "b" GREEN) 1 1 2 "a" RED in
  pixel final12 5 = (Some 2, Some "a"%char, Some (Some RED)) /\
  pixel final21 5 = (Some 2, Some "a"%char, Some (Some RED)).
Proof.
  apply (depth_test sample_renderer 1 1 1 1 2 1 "a" "b" RED GREEN).
  - apply sample_renderer_well_formed.
  - on_sample_screen.
  - reflexivity.
  - lra.
  - simpl. lra.
Defined.

(** C1 as the specification words it fails when the pixel already holds a
    closer sample. On the cleared 4 x 4 screen a sample of inverse depth 3
    is drawn at pixel (1, 1), cell 5; two more submissions to that pixel
    follow, of inverse depths 2 and 1. In either order the pixel still
    shows the first sample, not the one of inverse depth 2. *)
Lemma depth_test_counterexample :
  let before := rasterize (clearBuffers sample_renderer) 1 1 3 "@" BLUE in
  let final12 := rasterize (rasterize before 1 1 2 "a" RED) 1 1 1 "b" GREEN in
  let final21 := rasterize (rasterize before 1 1 1 "b" GREEN) 1 1 2 "a" RED in
  well_formed before /\ on_screen before 1 1 /\ 2 > 1 /\
  pixel final12 5 = (Some 3, Some "@"%char, Some (Some BLUE)) /\
  pixel final21 5 = (Some 3, Some "@"%char, Some (Some BLUE)) /\
  buffer final12 !! 5%nat ≠ Some "a"%char /\
  buffer final21 !! 5%nat ≠ Some "a"%char /\
  colorBuffer final12 !! 5%nat ≠ Some (Some RED) /\
  colorBuffer final21 !! 5%nat ≠ Some (Some RED).
Proof.
  cbv zeta. rewrite sample_renderer_cleared.
  assert (Hbefore : rasterize sample_renderer 1 1 3 "@" BLUE =
                    set_cell sample_renderer 5 3 "@" (Some BLUE)).
  { apply rasterize_win; [on_sample_screen | simpl; lra]. }
  rewrite Hbefore.
  assert (Hkeep : forall ooz ch color, ooz <= 3 ->
            rasterize (set_cell sample_renderer 5 3 "@" (Some BLUE)) 1 1 ooz ch color =
            set_cell sample_renderer 5 3 "@" (Some BLUE)).
  { intros ooz ch color Hle. apply rasterize_keep. simpl. lra. }
  rewrite !Hkeep by lra.
  repeat split; try done; try lra; on_sample_screen.
Qed.

(** ** clearBuffers and the depth invariant of a frame *)

Lemma length_fill {T} (l : list T) v n : length (fill l v n) = length l.
Proof. induction n as [|n IH]; simpl; [done|]. by rewrite length_insert. Qed.

Lemma fill_lookup {T} (l : list T) v n i :
  (i < n)%nat -> (i < length l)%nat -> fill l v n !! i = Some v.
Proof.
  induction n as [|n IH]; intros Hi Hl; simpl; [lia|].
  destruct (decide (i = n)) as [->|Hne].
  - apply list_lookup_insert_eq. by rewrite length_fill.
  - rewrite list_lookup_insert_ne by done. apply IH; lia.
Qed.

Lemma clearBuffers_well_formed renderer :
  well_formed renderer -> well_formed (clearBuffers renderer).
Proof.
  unfold well_formed, clearBuffers, cells. simpl. by rewrite !length_fill.
Qed.

(** After [clearBuffers] every pixel has depth 0, the background glyph and
    the empty colour tag. *)
Lemma clearBuffers_pixel renderer i :
  well_formed renderer -> (i < cells renderer)%nat ->
  pixel (clearBuffers renderer) i =
  (Some 0, Some (backgroundASCIICode renderer), Some (Some ""%string)).
Proof.
  intros (Hz & Hb & Hc) Hi. unfold pixel, clearBuffers. simpl.
  by rewrite !fill_lookup by lia.
Qed.

Lemma frame_inv_cleared renderer :
  well_formed renderer -> frame_inv (clearBuffers renderer).
Proof.
  intros Hwf. split; [by apply clearBuffers_well_formed|].
  intros i d Hd.
  assert (Hi : (i < cells renderer)%nat).
  { pose proof (lookup_lt_Some _ _ _ Hd) as Hlt. simpl in Hlt.
    rewrite length_fill in Hlt. destruct Hwf as (Hz & _). lia. }
  pose proof (clearBuffers_pixel renderer i Hwf Hi) as Hpx.
  unfold pixel in Hpx. injection Hpx as Hz Hb Hc.
  simpl in Hd, Hz. rewrite Hz in Hd. injection Hd as <-. split; [lra|done].
Qed.

(** What a submission does, pixel by pixel: all pixels stay, or else one
    pixel of the screen takes the submitted sample, whose inverse depth is
    strictly greater than the depth stored there. *)
Lemma submit_effect renderer s :
  well_formed renderer ->
  submit renderer s = renderer \/
  exists (n : nat) (ooz : R),
    (n < cells renderer)%nat /\
    ooz > zBuffer renderer !!! n /\
    submit renderer s = set_cell renderer n ooz (glyph s) (Some (tag s)).
Proof.
  intros Hwf. unfold submit. rewrite projectAndDraw_stages.
  destruct (project _ _) as [[[xp yp] ooz]|]; [|by left].
  destruct (decide (on_screen renderer xp yp)) as [Hon|Hoff].
  - destruct (Rle_dec ooz (zBuffer renderer !!! Z.to_nat (pixel_index renderer xp yp)))
      as [Hle|Hgt].
    + left. by apply rasterize_keep.
    + right. eexists _, ooz. split; [by apply on_screen_cell|].
      split; [|apply rasterize_win; [done|]]; lra.
  - left. by apply rasterize_off_screen.
Qed.

Lemma frame_inv_submit renderer s :
  frame_inv renderer -> frame_inv (submit renderer s).
Proof.
  intros [Hwf Hinv].
  destruct (submit_effect renderer s Hwf) as [-> | (n & ooz & Hn & Hwin & ->)];
    [done|].
  split; [by apply set_cell_well_formed|].
  pose proof (depth_at renderer n Hwf Hn) as Hstored.
  destruct (Hinv _ _ Hstored) as [Hpos _].
  intros i d. simpl.
  destruct (decide (i = n)) as [->|Hne].
  - rewrite list_lookup_insert_eq by (destruct Hwf as (-> & _); done).
    intros [= <-]. split; [lra|]. intros ->. lra.
  - rewrite !list_lookup_insert_ne by done. apply Hinv.
Qed.

Lemma frame_state_inv start renderer :
  well_formed start -> frame_state start renderer -> frame_inv renderer.
Proof.
  intros Hwf Hreach. induction Hreach as [|renderer s _ IH].
  - by apply frame_inv_cleared.
  - by apply frame_inv_submit.
Qed.

(** C10. In every state of a frame, from [clearBuffers] on and through any
    number of submissions, no depth cell is negative and a pixel whose
    depth cell is 0 shows the background glyph with the empty colour tag;
    the next submission keeps this, and a pixel whose glyph or colour it
    changes is one where it won the depth test: the pixel takes the
    submitted sample together with its inverse depth, which is strictly
    greater than the depth stored before and strictly positive. *)
Theorem frame_depth_invariant (start renderer : CubeRenderer) (s : Submission) :
  well_formed start ->
  frame_state start renderer ->
  frame_inv renderer /\
  frame_inv (submit renderer s) /\
  forall i : nat,
    buffer (submit renderer s) !! i ≠ buffer renderer !! i \/
    colorBuffer (submit renderer s) !! i ≠ colorBuffer renderer !! i ->
    exists stored ooz : R,
      zBuffer renderer !! i = Some stored /\
      ooz > stored /\ ooz > 0 /\
      pixel (submit renderer s) i =
        (Some ooz, Some (glyph s), Some (Some (tag s))).
Proof.
  intros Hwf Hreach.
  pose proof (frame_state_inv start renderer Hwf Hreach) as Hinv.
  split; [done|]. split; [by apply frame_inv_submit|].
  destruct Hinv as [Hwfr Hinv].
  intros i Hchange.
  destruct (submit_effect renderer s Hwfr) as [Hsame | (n & ooz & Hn & Hwin & Hset)].
  - rewrite Hsame in Hchange. by destruct Hchange.
  - rewrite Hset in Hchange |- *.
    destruct (decide (i = n)) as [->|Hne].
    + pose proof (depth_at renderer n Hwfr Hn) as Hstored.
      destruct (Hinv _ _ Hstored) as [Hpos _].
      eexists _, ooz. split; [exact Hstored|].
      split; [done|]. split; [lra|]. by apply pixel_set_cell.
    + simpl in Hchange. rewrite !list_lookup_insert_ne in Hchange by done.
      by destruct Hchange.
Qed.

(** ** The status line *)

Lemma printf_1f_tenths v n :
  round_half_even (Rabs v * 10) = n ->
  printf_1f v =
  (if Rlt_dec v 0 then "-" else "") +:+
  decimal (n / 10) +:+ "." +:+ decimal (n mod 10).
Proof. intros <-. reflexivity. Qed.

(** An exact tie goes to the even digit: 3.25 is printed as 3.2. *)
Lemma printf_1f_3_25 : printf_1f 3.25 = "3.2"%string.
Proof.
  rewrite (printf_1f_tenths 3.25 32).
  - destruct (Rlt_dec _ _); [lra|reflexivity].
  - rewrite Rabs_pos_eq by lra.
    replace (3.25 * 10) with (IZR 32 + 1 / 2) by lra.
    by rewrite round_half_even_tie.
Qed.

Lemma printf_1f_minus_1 : printf_1f (-1) = "-1.0"%string.
Proof.
  rewrite (printf_1f_tenths (-1) 10).
  - destruct (Rlt_dec _ _); [reflexivity|lra].
  - apply round_half_even_near. rewrite Rabs_left by lra. lra.
Qed.

Lemma printf_1f_10 : printf_1f 10 = "10.0"%string.
Proof.
  rewrite (printf_1f_tenths 10 100).
  - destruct (Rlt_dec _ _); [lra|reflexivity].
  - apply round_half_even_near. rewrite Rabs_pos_eq by lra. lra.
Qed.

Lemma string_app_cons (c : ascii) (s1 s2 : string) :
  String c s1 +:+ s2 = String c (s1 +:+ s2).
Proof. reflexivity. Qed.

Lemma string_app_assoc (s1 s2 s3 : string) :
  (s1 +:+ s2) +:+ s3 = s1 +:+ (s2 +:+ s3).
Proof.
  induction s1 as [|c s1 IH]; [done|].
  by rewrite !string_app_cons, IH.
Qed.

Lemma string_app_nil_r (s : string) : s +:+ "" = s.
Proof. induction s as [|c s IH]; [done|]. by rewrite string_app_cons, IH. Qed.

Lemma sprintf_status_text renderer :
  sprintf_status renderer =
  WHITE +:+
  status_text (horizontalOffset renderer) (verticalOffset renderer)
    (cubeWidth renderer) +:+
  RESET.
Proof.
  unfold sprintf_status, status_text, WHITE.
  rewrite !string_app_assoc. reflexivity.
Qed.

(** C3, as the code has it. With [horizontalOffset = 3.25],
    [verticalOffset = -1.0] and [cubeWidth = 10.0] the status text is
    "H=3.2:V=-1.0:W=10.0": each value has one decimal, and 3.25, which lies
    exactly between 3.2 and 3.3, goes to the even digit. [sprintf] writes
    it between the bright-white escape and the reset. *)
Theorem status_line_scenario (renderer : CubeRenderer) :
  horizontalOffset renderer = 3.25 ->
  verticalOffset renderer = -1 ->
  cubeWidth renderer = 10 ->
  status_text (horizontalOffset renderer) (verticalOffset renderer)
    (cubeWidth renderer) = "H=3.2:V=-1.0:W=10.0"%string /\
  sprintf_status renderer =
    (String ESC "[97mH=3.2:V=-1.0:W=10.0" +:+ String ESC "[0m")%string.
Proof.
  intros Hh Hv Hw.
  rewrite sprintf_status_text. unfold status_text.
  rewrite Hh, Hv, Hw, printf_1f_3_25, printf_1f_minus_1, printf_1f_10.
  split; reflexivity.
Qed.

Lemma status_line_scenario_witness :
  status_text 3.25 (-1) 10 = "H=3.2:V=-1.0:W=10.0"%string /\
  sprintf_status status_renderer =
    (String ESC "[97mH=3.2:V=-1.0:W=10.0" +:+ String ESC "[0m")%string.
Proof.
  apply (status_line_scenario status_renderer); reflexivity.
Defined.

(** C3 as the specification words it fails: the text for 3.25, -1.0 and
    10.0 is not "H=3.3:V=-1.0:W=10.0", with or without the escapes around
    it. *)
Lemma status_line_counterexample :
  horizontalOffset status_renderer = 3.25 /\
  verticalOffset status_renderer = -1 /\
  cubeWidth status_renderer = 10 /\
  status_text 3.25 (-1) 10 ≠ "H=3.3:V=-1.0:W=10.0"%string /\
  sprintf_status status_renderer ≠ "H=3.3:V=-1.0:W=10.0"%string /\
  sprintf_status status_renderer ≠
    (String ESC "[97mH=3.3:V=-1.0:W=10.0" +:+ String ESC "[0m")%string.
Proof.
  repeat split; try reflexivity.
  all: rewrite ?sprintf_status_text; unfold status_text; simpl;
       rewrite printf_1f_3_25, printf_1f_minus_1, printf_1f_10;
       discriminate.
Qed.

(** ** The frame composer *)

Lemma string_app_nil_l (s : string) : "" +:+ s = s.
Proof. reflexivity. Qed.

Lemma flatten_app (l1 l2 : list string) :
  flatten (l1 ++ l2) = flatten l1 +:+ flatten l2.
Proof.
  induction l1 as [|s l1 IH]; simpl; [done|].
  by rewrite IH, string_app_assoc.
Qed.

(** The pixel loop on a renderer whose arrays are complete. *)
Section FrameComposer.

Variable renderer : CubeRenderer.
Hypothesis Hwf : well_formed renderer.
Hypothesis Hcolors : colors_set renderer.
Hypothesis Hwidth : (0 < width renderer)%Z.

Let W : nat := Z.to_nat (width renderer).

Lemma render_pixel_text k out :
  (k < cells renderer)%nat ->
  render_pixel renderer (Z.of_nat k) out = Some (out +:+ cell_text renderer k).
Proof.
  intros Hk. destruct Hwf as (_ & Hb & _).
  destruct (Hcolors k Hk) as [color Hcolor].
  destruct (lookup_lt_is_Some_2 (buffer renderer) k) as [ch Hch]; [lia|].
  unfold render_pixel, cell_text, tag_at, glyph_at, pixel_text, putc.
  rewrite Nat2Z.id, Hcolor, Hch.
  destruct (_ && _); destruct (String.eqb color ""); simpl;
    by rewrite ?string_app_assoc, ?string_app_nil_l.
Qed.

Lemma render_loop_text n : forall k out,
  (k + n <= cells renderer)%nat ->
  render_loop renderer n (Z.of_nat k) out =
  Some (out +:+ flatten (cell_text renderer <$> seq k n)).
Proof.
  induction n as [|n IH]; intros k out Hkn; simpl.
  - by rewrite string_app_nil_r.
  - rewrite render_pixel_text by lia.
    replace (Z.of_nat k + 1)%Z with (Z.of_nat (S k)) by lia.
    rewrite IH by lia. by rewrite string_app_assoc.
Qed.

(** A cell that is not the first of its row carries no line feed. *)
Lemma inner_cell_text row col :
  (0 < col < W)%nat ->
  cell_text renderer (col + row * W) =
  pixel_text (tag_at renderer (col + row * W)) (glyph_at renderer (col + row * W)).
Proof.
  intros Hcol. unfold cell_text.
  replace (Z.rem (Z.of_nat (col + row * W)) (width renderer) =? 0)%Z
    with false; [done|].
  symmetry. apply Z.eqb_neq.
  assert (HW : width renderer = Z.of_nat W) by (unfold W; lia).
  rewrite HW, Z.rem_mod_nonneg, <- Nat2Z.inj_mod by lia.
  rewrite Nat.Div0.mod_add, Nat.mod_small by lia. lia.
Qed.

(** The first cell of a row carries one, except in the first row. *)
Lemma first_cell_text row :
  cell_text renderer (0 + row * W) =
  (if (0 <? row)%nat then String LF "" else "") +:+
  pixel_text (tag_at renderer (0 + row * W)) (glyph_at renderer (0 + row * W)).
Proof.
  unfold cell_text. f_equal.
  assert (HW : width renderer = Z.of_nat W) by (unfold W; lia).
  replace (Z.rem (Z.of_nat (0 + row * W)) (width renderer) =? 0)%Z with true.
  - destruct row; [done|].
    replace (0 <? Z.of_nat (0 + S row * W))%Z with true; [done|].
    symmetry. apply Z.ltb_lt. lia.
  - symmetry. apply Z.eqb_eq.
    rewrite HW, Z.rem_mod_nonneg, <- Nat2Z.inj_mod by lia.
    by rewrite Nat.add_0_l, Nat.Div0.mod_mul.
Qed.

Lemma inner_cells row cols : forall from,
  (0 < from)%nat -> (from + cols <= W)%nat ->
  cell_text renderer <$> seq (from + row * W) cols =
  (fun col => pixel_text (tag_at renderer (col + row * W))
                         (glyph_at renderer (col + row * W)))
  <$> seq from cols.
Proof.
  induction cols as [|cols IH]; intros from Hfrom Hfit; [done|].
  change (seq (from + row * W) (S cols))
    with ((from + row * W)%nat :: seq (S from + row * W) cols).
  change (seq from (S cols)) with (from :: seq (S from) cols).
  rewrite !fmap_cons, inner_cell_text, IH by lia. done.
Qed.

Lemma row_cells row :
  flatten (cell_text renderer <$> seq (row * W) W) = row_text renderer row.
Proof.
  unfold row_text. fold W.
  assert (Hpos : (0 < W)%nat) by (unfold W; lia).
  destruct W as [|w] eqn:HW; [lia|].
  change (seq (row * S w) (S w))
    with ((0 + row * S w)%nat :: seq (1 + row * S w) w).
  change (seq 0 (S w)) with (0%nat :: seq 1 w).
  rewrite !fmap_cons. cbn [flatten].
  rewrite <- HW, first_cell_text, inner_cells by lia.
  by rewrite string_app_assoc.
Qed.

Lemma grid_cells rows :
  flatten (cell_text renderer <$> seq 0 (rows * W)) =
  flatten (row_text renderer <$> seq 0 rows).
Proof.
  induction rows as [|rows IH]; [done|].
  replace (S rows * W)%nat with (rows * W + W)%nat by lia.
  rewrite seq_app, fmap_app, flatten_app, IH, Nat.add_0_l, row_cells.
  rewrite seq_S, fmap_app, flatten_app. simpl.
  by rewrite string_app_nil_r.
Qed.

Lemma cells_rows : cells renderer = (Z.to_nat (height renderer) * W)%nat.
Proof. unfold cells, W. nia. Qed.

Lemma grid_text_cells :
  grid_text renderer = flatten (cell_text renderer <$> seq 0 (cells renderer)).
Proof. unfold grid_text. by rewrite cells_rows, grid_cells. Qed.

Lemma render_text :
  render renderer =
  if bool_decide (frame_fits renderer) then Some (compose_frame renderer)
  else None.
Proof.
  unfold render, frame_fits, compose_frame. rewrite grid_text_cells.
  change 0%Z with (Z.of_nat 0).
  rewrite render_loop_text by lia. cbv zeta.
  by rewrite sprintf_status_text, !string_app_assoc.
Qed.

End FrameComposer.

(** The colour cells are all set in every state of a frame, which is where
    the game loop calls [render]. *)
Lemma frame_state_colors_set start renderer :
  well_formed start -> frame_state start renderer -> colors_set renderer.
Proof.
  intros Hwf Hreach.
  pose proof (frame_state_inv start renderer Hwf Hreach) as [Hwfr _].
  induction Hreach as [|renderer s Hreach IH].
  - intros i Hi. exists ""%string.
    pose proof (clearBuffers_pixel start i Hwf Hi) as Hpx.
    unfold pixel in Hpx. by injection Hpx as _ _ Hc.
  - pose proof (frame_state_inv start renderer Hwf Hreach) as [Hwf' _].
    specialize (IH Hwf').
    destruct (submit_effect renderer s Hwf') as [-> | (n & ooz & Hn & _ & ->)];
      [done|].
    intros i Hi. simpl.
    destruct (decide (i = n)) as [->|Hne].
    + exists (tag s). apply list_lookup_insert_eq.
      destruct Hwf' as (_ & _ & ->). exact Hn.
    + rewrite list_lookup_insert_ne by done. by apply IH.
Qed.

(** *** The size of a frame *)

Lemma string_length_app (s1 s2 : string) :
  String.length (s1 +:+ s2) = (String.length s1 + String.length s2)%nat.
Proof.
  induction s1 as [|c s1 IH]; [done|].
  rewrite string_app_cons. simpl. by rewrite IH.
Qed.

Lemma cell_text_length renderer k :
  tag_at renderer k = ""%string \/ String.length (tag_at renderer k) = 5%nat ->
  (1 + (if decide (tag_at renderer k <> ""%string) then 9 else 0) <=
   String.length (cell_text renderer k))%nat.
Proof.
  intros Htag. unfold cell_text, pixel_text.
  rewrite string_length_app.
  destruct (decide (tag_at renderer k <> ""%string)) as [Hne|Heq].
  - destruct Htag as [Htag|Htag]; [done|].
    destruct (String.eqb_spec (tag_at renderer k) "") as [He|_]; [done|].
    rewrite !string_length_app, Htag. simpl. lia.
  - assert (He : tag_at renderer k = ""%string) by (by destruct (decide (tag_at renderer k = ""%string))).
    rewrite He. simpl. lia.
Qed.

(** The cells [l] of a frame take a byte each, and nine more where they
    carry a colour. *)
Lemma cells_text_length renderer (l : list nat) :
  Forall (fun k => tag_at renderer k = ""%string \/
                   String.length (tag_at renderer k) = 5%nat) l ->
  (length l + 9 * length (filter (fun k => tag_at renderer k <> ""%string) l) <=
   String.length (flatten (cell_text renderer <$> l)))%nat.
Proof.
  induction l as [|k l IH]; intros Hl; [simpl; lia|].
  apply Forall_cons in Hl as [Hk Hl]. specialize (IH Hl).
  pose proof (cell_text_length renderer k Hk) as Hcell.
  rewrite fmap_cons. cbn [flatten]. rewrite string_length_app.
  rewrite filter_cons.
  destruct (decide (tag_at renderer k <> ""%string)); simpl in *; lia.
Qed.

(** A frame with so many coloured pixels that their bytes alone fill the
    scratch area does not fit. *)
Lemma colored_frame_overruns renderer :
  well_formed renderer -> colors_set renderer -> (0 < width renderer)%Z ->
  face_colors renderer ->
  (scratch_size renderer <= Z.of_nat (cells renderer + 9 * colored renderer))%Z ->
  ~ frame_fits renderer.
Proof.
  intros Hwf Hcolors Hwidth Hfaces Hmany. unfold frame_fits, compose_frame.
  rewrite (grid_text_cells renderer Hwidth).
  rewrite !string_length_app.
  pose proof (cells_text_length renderer (seq 0 (cells renderer))) as Hlen.
  rewrite length_seq in Hlen. unfold colored in Hmany.
  assert (Hall : Forall (fun k => tag_at renderer k = ""%string \/
                   String.length (tag_at renderer k) = 5%nat)
                   (seq 0 (cells renderer))).
  { apply Forall_forall. intros k Hk%elem_of_seq. apply Hfaces. lia. }
  specialize (Hlen Hall). lia.
Qed.

(** C5. Where the frame fits into the scratch area, [render] writes the
    frame the specification describes: cursor home; the pixels row after
    row and left to right, a line feed opening every row but the first,
    each pixel as its glyph, wrapped in its colour escape and a reset when
    its colour tag is not empty; then a reset, cursor home and the status
    line with [horizontalOffset], [verticalOffset] and [cubeWidth]. Where
    it does not fit, [render] writes past the end of the block of
    [buffer]. *)
Theorem render_composes_frame (renderer : CubeRenderer) :
  well_formed renderer -> colors_set renderer -> (0 < width renderer)%Z ->
  (frame_fits renderer -> render renderer = Some (compose_frame renderer)) /\
  (~ frame_fits renderer -> render renderer = None).
Proof.
  intros Hwf Hcolors Hwidth. rewrite render_text by done.
  split; intros Hfit.
  - by rewrite bool_decide_eq_true_2.
  - by rewrite bool_decide_eq_false_2.
Qed.

Lemma render_composes_frame_overrun renderer :
  well_formed renderer -> colors_set renderer -> (0 < width renderer)%Z ->
  ~ frame_fits renderer -> render renderer = None.
Proof.
  intros Hwf Hcolors Hwidth Hfit. rewrite render_text by done.
  by rewrite bool_decide_eq_false_2.
Qed.

Lemma sample_renderer_colors_set : colors_set sample_renderer.
Proof.
  intros i Hi. exists ""%string.
  apply lookup_replicate_2. exact Hi.
Qed.

Lemma printf_1f_0 : printf_1f 0 = "0.0"%string.
Proof.
  rewrite (printf_1f_tenths 0 0).
  - destruct (Rlt_dec _ _); [lra|reflexivity].
  - apply round_half_even_near. rewrite Rabs_R0. lra.
Qed.

Lemma sample_renderer_fits : frame_fits sample_renderer.
Proof.
  unfold frame_fits, compose_frame, status_text.
  change (horizontalOffset sample_renderer) with 10.
  change (verticalOffset sample_renderer) with 0.
  change (cubeWidth sample_renderer) with 10.
  rewrite printf_1f_10, printf_1f_0. by vm_compute.
Qed.

Lemma covered_renderer_well_formed : well_formed covered_renderer.
Proof. repeat split; apply length_replicate. Qed.

Lemma covered_renderer_tag k :
  (k < cells covered_renderer)%nat -> tag_at covered_renderer k = RED.
Proof.
  intros Hk. unfold tag_at.
  change (colorBuffer covered_renderer)
    with (replicate (cells covered_renderer) (Some RED)).
  by rewrite lookup_replicate_2.
Qed.

Lemma covered_renderer_colors_set : colors_set covered_renderer.
Proof.
  intros i Hi. exists RED.
  change (colorBuffer covered_renderer)
    with (replicate (cells covered_renderer) (Some RED)).
  by apply lookup_replicate_2.
Qed.

Lemma filter_all {T : Type} (P : T -> Prop) `{forall v, Decision (P v)}
    (l : list T) :
  Forall P l -> filter P l = l.
Proof.
  induction 1 as [|v l Hv Hl IH]; [done|].
  by rewrite filter_cons_True, IH.
Qed.

Lemma covered_renderer_colored :
  colored covered_renderer = cells covered_renderer.
Proof.
  unfold colored.
  rewrite filter_all; [apply length_seq|].
  apply Forall_forall. intros k Hk%elem_of_seq.
  by rewrite covered_renderer_tag by lia.
Qed.

Lemma covered_renderer_overruns : ~ frame_fits covered_renderer.
Proof.
  apply colored_frame_overruns.
  - apply covered_renderer_well_formed.
  - apply covered_renderer_colors_set.
  - done.
  - intros k Hk. right. by rewrite covered_renderer_tag.
  - rewrite covered_renderer_colored.
    change (cells covered_renderer) with (Z.to_nat 7040).
    change (scratch_size covered_renderer) with 63604%Z. lia.
Qed.

(** The 4 x 4 example fits and is composed as described; the frame of the
    covered 160 x 44 screen takes more than 70400 bytes, the scratch area
    has 63604. *)
Lemma render_composes_frame_witness :
  (well_formed sample_renderer /\ colors_set sample_renderer /\
   (0 < width sample_renderer)%Z /\ frame_fits sample_renderer /\
   render sample_renderer = Some (compose_frame sample_renderer)) /\
  (well_formed covered_renderer /\ colors_set covered_renderer /\
   (0 < width covered_renderer)%Z /\ ~ frame_fits covered_renderer /\
   scratch_size covered_renderer = 63604%Z /\
   render covered_renderer = None).
Proof.
  split.
  - split; [apply sample_renderer_well_formed|].
    split; [apply sample_renderer_colors_set|].
    split; [done|]. split; [apply sample_renderer_fits|].
    apply (render_composes_frame sample_renderer);
      [ apply sample_renderer_well_formed | apply sample_renderer_colors_set
      | done | apply sample_renderer_fits ].
  - split; [apply covered_renderer_well_formed|].
    split; [apply covered_renderer_colors_set|].
    split; [done|]. split; [apply covered_renderer_overruns|].
    split; [reflexivity|].
    apply (render_composes_frame covered_renderer);
      [ apply covered_renderer_well_formed | apply covered_renderer_colors_set
      | done | apply covered_renderer_overruns ].
Defined.

(** The frame of the 2 x 2 example, byte by byte. *)
Example render_small_renderer :
  render small_renderer =
  Some (String ESC "[H " +:+
        String ESC "[91m#" +:+ String ESC "[0m" +:+
        String LF "" +:+
        String ESC "[96m#" +:+ String ESC "[0m." +:+
        String ESC "[0m" +:+ String ESC "[H" +:+
        String ESC "[97mH=10.0:V=0.0:W=10.0" +:+ String ESC "[0m")%string.
Proof.
  unfold render.
  assert (Hstatus : sprintf_status small_renderer =
            (String ESC "[97mH=10.0:V=0.0:W=10.0" +:+ String ESC "[0m")%string).
  { rewrite sprintf_status_text. unfold status_text.
    change (horizontalOffset small_renderer) with 10.
    change (verticalOffset small_renderer) with 0.
    change (cubeWidth small_renderer) with 10.
    by rewrite printf_1f_10, printf_1f_0. }
  rewrite Hstatus. reflexivity.
Qed.

(** ** The end-to-end scenario *)

(** [1.0f / 99.0f] is 10845877 / 2^30. *)
Lemma to_float_1_99 : to_float (1 / 99) = 10845877 / 1073741824.
Proof. float_near (1 / 99)%R (-30)%Z 10845877%Z. lra. Qed.

(** The lattice point (0, 0, -1) of the front face of the scenario is
    projected to the pixel (2, 2) with that inverse depth. *)
Lemma scenario_lattice_point :
  project scenario_renderer (calculatePoint scenario_renderer 0 0 (-1)) =
  Some (2%Z, 2%Z, 10845877 / 1073741824).
Proof.
  rewrite calculatePoint_zero_angles by (try reflexivity; lia).
  rewrite to_float_0, (to_float_IZR (-1)) by lia.
  unfold project.
  change (z {| x := 0; y := 0; z := -1 |}) with (-1).
  change (y {| x := 0; y := 0; z := -1 |}) with 0.
  change (x {| x := 0; y := 0; z := -1 |}) with 0.
  change (distanceFromCam scenario_renderer) with 100.
  change (width scenario_renderer) with 4%Z.
  change (height scenario_renderer) with 4%Z.
  change (horizontalOffset scenario_renderer) with 0.
  change (verticalOffset scenario_renderer) with 0.
  rewrite !fmul_0_r, !fmul_0_l. unfold fadd, fdiv.
  float_exact (-1 + 100)%R 99%Z.
  rewrite to_float_1_99, to_float_0_001.
  destruct (Rle_dec _ _); [lra|].
  float_exact 4%R 4%Z. float_exact (4 / 2)%R 2%Z.
  float_exact (2 + 0)%R 2%Z. float_exact (2 + 0)%R 2%Z.
  by rewrite (Ctrunc_IZR 2).
Qed.

(** Its front-face sample becomes a red '#' in the cell 10. *)
Lemma scenario_submit :
  submit scenario_renderer scenario_sample =
  set_cell scenario_renderer 10 (10845877 / 1073741824) "#"%char (Some RED).
Proof.
  unfold submit, scenario_sample. cbn [cubeX cubeY cubeZ glyph tag].
  rewrite projectAndDraw_stages.
  replace 0 with (IZR 0) at 1 2 by done. replace (-1) with (IZR (-1)) by done.
  rewrite !Ctrunc_IZR, scenario_lattice_point.
  rewrite rasterize_win; [done | on_sample_screen | simpl; lra].
Qed.

(** Two samples between the lattice planes, (0.5, -0.25, -1.5) and
    (-0.75, 0.5, -1), are both drawn as the lattice point (0, 0, -1) is: a
    red '#' in the cell 10. *)
Lemma projectAndDraw_truncates_witness :
  projectAndDraw scenario_renderer 0.5 (-0.25) (-1.5) "#"%char RED =
    set_cell scenario_renderer 10 (10845877 / 1073741824) "#"%char (Some RED) /\
  projectAndDraw scenario_renderer 0.5 (-0.25) (-1.5) "#"%char RED <>
    scenario_renderer /\
  projectAndDraw scenario_renderer 0.5 (-0.25) (-1.5) "#"%char RED =
    projectAndDraw scenario_renderer (-0.75) 0.5 (-1) "#"%char RED.
Proof.
  destruct (projectAndDraw_truncates scenario_renderer
              0.5 (-0.25) (-1.5) (-0.75) 0.5 (-1) 0 0 (-1) "#"%char RED)
    as (Hdraw & _ & _ & Hsame & _);
    try (apply toward_zero_intro; lra); try (unfold int_value; lia).
  assert (Hcell : projectAndDraw scenario_renderer 0.5 (-0.25) (-1.5) "#"%char RED =
            set_cell scenario_renderer 10 (10845877 / 1073741824) "#"%char (Some RED)).
  { rewrite Hdraw, scenario_lattice_point.
    rewrite rasterize_win; [done | on_sample_screen | simpl; lra]. }
  split; [exact Hcell|]. split; [|exact Hsame].
  rewrite Hcell. intros Heq. apply (f_equal buffer) in Heq. discriminate Heq.
Defined.

Lemma scenario_renderer_well_formed : well_formed scenario_renderer.
Proof. by repeat split. Qed.

Lemma frame_depth_invariant_witness :
  well_formed scenario_renderer /\
  frame_state scenario_renderer (clearBuffers scenario_renderer) /\
  frame_inv (clearBuffers scenario_renderer) /\
  frame_inv (submit (clearBuffers scenario_renderer) scenario_sample) /\
  exists stored ooz : R,
    zBuffer (clearBuffers scenario_renderer) !! 10%nat = Some stored /\
    ooz > stored /\ ooz > 0 /\
    pixel (submit (clearBuffers scenario_renderer) scenario_sample) 10 =
      (Some ooz, Some "#"%char, Some (Some RED)).
Proof.
  pose proof scenario_renderer_well_formed as Hwf.
  pose proof (frame_cleared scenario_renderer) as Hstate.
  destruct (frame_depth_invariant scenario_renderer
              (clearBuffers scenario_renderer) scenario_sample Hwf Hstate)
    as (Hinv & Hinv' & Hchange).
  repeat (split; [done|]).
  apply (Hchange 10%nat).
  change (clearBuffers scenario_renderer) with scenario_renderer.
  rewrite scenario_submit. left. simpl. discriminate.
Defined.

(** ** The loops of drawCube *)

Lemma nat_above (v : R) : exists n : nat, v <= INR n.
Proof.
  destruct (Rle_dec v 0) as [Hneg|Hpos].
  - exists 0%nat. simpl. lra.
  - destruct (archimed v) as [Hup _].
    assert (Hz : (0 <= up v)%Z) by (apply le_IZR; lra).
    exists (Z.to_nat (up v)). rewrite INR_IZR_INZ, Z2Nat.id by done. lra.
Qed.

(** Between -50 and 50 a step of at least 2^-18 moves the loop variable,
    rounded as its sum with the step is, by more than the step less
    2^-19: [S n] turns of fuel are enough as soon as [n] such moves cover
    the distance to the bound. *)
Lemma for_float_enough body bound step n :
  2 * pow2 (-19) <= step <= 13 -> bound <= 50 ->
  (forall v renderer, is_Some (body v renderer)) ->
  forall v renderer,
    -50 <= v ->
    bound - v <= INR n * (step - pow2 (-19)) ->
    is_Some (for_float (S n) v bound step body renderer).
Proof.
  intros Hstep Hbound Htotal. pose proof (pow2_pos (-19)) as Heps.
  induction n as [|n IH]; intros v renderer Hv Hdist.
  - simpl in *. destruct (Rlt_dec v bound); [lra|done].
  - rewrite S_INR in Hdist.
    change (for_float (S (S n)) v bound step body renderer)
      with (if Rlt_dec v bound then
              match body v renderer with
              | Some renderer' => for_float (S n) (v ⊕ step) bound step body renderer'
              | None => None
              end
            else Some renderer).
    destruct (Rlt_dec v bound); [|done].
    destruct (Htotal v renderer) as [renderer' ->].
    pose proof (to_float_error_64 (v + step)) as Herr.
    apply Rabs_le_bounds in Herr; [|apply Rabs_def1; lra].
    unfold fadd. apply IH; lra.
Qed.

Lemma drawFace_enough n cubeWidth increment sample color renderer :
  2 * pow2 (-19) <= increment <= 13 -> 0 <= cubeWidth <= 50 ->
  2 * cubeWidth <= INR n * (increment - pow2 (-19)) ->
  is_Some (drawFace (S n) cubeWidth increment sample color renderer).
Proof.
  intros Hinc Hw Hn. pose proof (pow2_pos (-19)) as Heps. unfold drawFace.
  apply for_float_enough; [done|lra| |lra|lra].
  intros cubeX renderer'.
  apply for_float_enough; [done|lra| |lra|lra].
  intros cubeY renderer''. by destruct (sample cubeX cubeY) as [[px py] pz].
Qed.

(** [drawCube] returns for every cube width the program allows and every
    [incrementSpeed] between 2^-18 and 13, [0.6f] among them, given fuel
    for the longest of its loops. *)
Lemma drawCube_terminates renderer :
  0 <= cubeWidth renderer <= MAX_CUBE_WIDTH ->
  2 * pow2 (-19) <= incrementSpeed renderer <= 13 ->
  exists fuel, is_Some (drawCube fuel renderer).
Proof.
  unfold MAX_CUBE_WIDTH. intros Hw Hinc.
  pose proof (pow2_pos (-19)) as Heps.
  destruct (nat_above (2 * cubeWidth renderer /
                       (incrementSpeed renderer - pow2 (-19)))) as [n Hn].
  assert (Hcover : 2 * cubeWidth renderer <=
                   INR n * (incrementSpeed renderer - pow2 (-19))).
  { apply (Rmult_le_compat_r (incrementSpeed renderer - pow2 (-19))) in Hn;
      [|lra].
    unfold Rdiv in Hn. rewrite Rmult_assoc, Rinv_l, Rmult_1_r in Hn by lra.
    exact Hn. }
  exists (S n). unfold drawCube.
  repeat match goal with
  | |- is_Some (mbind _ (drawFace ?f ?w ?i ?s ?c ?r)) =>
      destruct (drawFace_enough n w i s c r Hinc Hw Hcover) as [? ->]; simpl
  end.
  by apply drawFace_enough.
Qed.

Lemma DEFAULT_INCREMENT_value : DEFAULT_INCREMENT = 10066330 / 16777216.
Proof.
  unfold DEFAULT_INCREMENT.
  float_near 0.6%R (-24)%Z 10066330%Z. lra.
Qed.

(** ** drawCube inside a frame *)

(** What every turn of a loop keeps, the loop keeps. *)
Lemma for_float_keeps (P : CubeRenderer -> Prop) body :
  (forall v renderer renderer',
     body v renderer = Some renderer' -> P renderer -> P renderer') ->
  forall fuel v bound step renderer renderer',
    for_float fuel v bound step body renderer = Some renderer' ->
    P renderer -> P renderer'.
Proof.
  intros Hbody fuel.
  induction fuel as [|fuel IH]; intros v bound step renderer renderer' Hrun Hin;
    simpl in Hrun; [done|].
  destruct (Rlt_dec v bound); [|by injection Hrun as <-].
  destruct (body v renderer) as [mid|] eqn:Hmid; [|done].
  eapply IH; [exact Hrun|]. by eapply Hbody.
Qed.

Lemma drawFace_keeps (P : CubeRenderer -> Prop)
    fuel cubeWidth increment sample color renderer renderer' :
  (forall renderer px py pz,
     P renderer -> P (projectAndDraw renderer px py pz "#"%char color)) ->
  drawFace fuel cubeWidth increment sample color renderer = Some renderer' ->
  P renderer -> P renderer'.
Proof.
  intros Hdraw. unfold drawFace. apply for_float_keeps.
  intros cubeX mid mid'. apply for_float_keeps.
  intros cubeY inner inner'.
  destruct (sample cubeX cubeY) as [[px py] pz]. intros [= <-] Hin.
  by apply Hdraw.
Qed.

(** [drawCube] changes the renderer through submissions only, and each of
    them is a '#' in one of the six colours. *)
Lemma drawCube_keeps (P : CubeRenderer -> Prop) fuel renderer renderer' :
  (forall renderer px py pz color,
     color ∈ [RED; GREEN; YELLOW; BLUE; MAGENTA; CYAN] ->
     P renderer -> P (projectAndDraw renderer px py pz "#"%char color)) ->
  drawCube fuel renderer = Some renderer' ->
  P renderer -> P renderer'.
Proof.
  unfold drawCube. intros Hdraw Hrun Hin.
  repeat match type of Hrun with
  | mbind _ (drawFace ?f ?w ?i ?s ?c ?r) = Some _ =>
      let Hface := fresh "Hface" in
      destruct (drawFace f w i s c r) as [?|] eqn:Hface; simpl in Hrun; [|done];
      apply (drawFace_keeps P) in Hface;
        [|intros; apply Hdraw; [set_solver|done]|done]
  end.
  eapply (drawFace_keeps P); [|exact Hrun|done].
  intros. apply Hdraw; [set_solver|done].
Qed.

(** What [drawCube] returns is a state of the frame it was called in. *)
Lemma drawCube_frame start fuel renderer renderer' :
  drawCube fuel renderer = Some renderer' ->
  frame_state start renderer -> frame_state start renderer'.
Proof.
  apply (drawCube_keeps (frame_state start)).
  intros inner px py pz color _ Hin.
  apply (frame_submitted start inner (mkSubmission px py pz "#"%char color) Hin).
Qed.

(** *** The colours of a frame *)

Lemma submit_size renderer s :
  well_formed renderer ->
  width (submit renderer s) = width renderer /\
  height (submit renderer s) = height renderer.
Proof.
  intros Hwf.
  by destruct (submit_effect renderer s Hwf) as [-> | (n & ooz & _ & _ & ->)].
Qed.

Lemma submit_face_colors renderer s :
  well_formed renderer -> face_colors renderer ->
  String.length (tag s) = 5%nat ->
  face_colors (submit renderer s).
Proof.
  intros Hwf Hfaces Htag.
  destruct (submit_effect renderer s Hwf) as [-> | (n & ooz & Hn & _ & ->)];
    [done|].
  intros k Hk. unfold tag_at. simpl.
  destruct (decide (k = n)) as [->|Hne].
  - rewrite list_lookup_insert_eq; [by right|].
    destruct Hwf as (_ & _ & ->). exact Hn.
  - rewrite list_lookup_insert_ne by done. by apply Hfaces.
Qed.

Lemma clearBuffers_face_colors renderer :
  well_formed renderer -> face_colors (clearBuffers renderer).
Proof.
  intros Hwf k Hk. left.
  pose proof (clearBuffers_pixel renderer k Hwf Hk) as Hpx.
  assert (Hc : colorBuffer (clearBuffers renderer) !! k = Some (Some ""%string))
    by (unfold pixel in Hpx; congruence).
  unfold tag_at. by rewrite Hc.
Qed.

(** After [clearBuffers] and [drawCube] the screen has its size, all its
    arrays, and no colours but those of the faces. *)
Lemma drawCube_face_colors start fuel renderer' :
  well_formed start ->
  drawCube fuel (clearBuffers start) = Some renderer' ->
  width renderer' = width start /\ height renderer' = height start /\
  well_formed renderer' /\ colors_set renderer' /\ face_colors renderer'.
Proof.
  intros Hwf Hrun.
  pose (P := fun renderer =>
    frame_state start renderer /\ face_colors renderer /\
    width renderer = width start /\ height renderer = height start).
  assert (Hend : P renderer').
  { apply (drawCube_keeps P fuel (clearBuffers start)); [|exact Hrun|].
    - intros inner px py pz color Hcolor (Hin & Hfaces & Hw & Hh).
      pose proof (frame_state_inv start inner Hwf Hin) as [Hwf' _].
      set (s := mkSubmission px py pz "#"%char color).
      change (projectAndDraw inner px py pz "#"%char color) with (submit inner s).
      destruct (submit_size inner s Hwf') as [Hw' Hh'].
      split; [by apply frame_submitted|].
      split; [|by rewrite Hw', Hh'].
      apply submit_face_colors; [done|done|].
      repeat (apply elem_of_cons in Hcolor as [->|Hcolor]; [done|]).
      by apply elem_of_nil in Hcolor.
    - split; [apply frame_cleared|].
      split; [by apply clearBuffers_face_colors|done]. }
  destruct Hend as (Hin & Hfaces & Hw & Hh).
  pose proof (frame_state_inv start renderer' Hwf Hin) as [Hwf' _].
  split; [done|]. split; [done|]. split; [done|]. split; [|done].
  by apply (frame_state_colors_set start).
Qed.

(** On the 160 x 44 screen of the program the scratch area has 63604
    bytes: a turn of the game loop in which [drawCube] leaves 6285 pixels
    or more with a colour overruns it. *)
Lemma crowded_frame_overruns start fuel renderer' :
  well_formed start ->
  width start = DEFAULT_WIDTH -> height start = DEFAULT_HEIGHT ->
  drawCube fuel (clearBuffers start) = Some renderer' ->
  (6285 <= Z.of_nat (colored renderer'))%Z ->
  render renderer' = None.
Proof.
  intros Hwf Hw Hh Hrun Hmany.
  destruct (drawCube_face_colors start fuel renderer' Hwf Hrun)
    as (Hw' & Hh' & Hwf' & Hcolors & Hfaces).
  rewrite Hw in Hw'. rewrite Hh in Hh'.
  apply render_composes_frame_overrun; try done.
  - by rewrite Hw'.
  - apply colored_frame_overruns; try done.
    + by rewrite Hw'.
    + unfold scratch_size, cells. rewrite Hw', Hh'.
      unfold DEFAULT_WIDTH, DEFAULT_HEIGHT. lia.
Qed.

(** ** The game loop *)

(** A 'q' ends the loop in the turn that reads it, after the buffers were
    cleared and before anything is drawn. *)
Lemma gameLoop_quit fuel keys renderer frames :
  gameLoop fuel (Some "q"%char :: keys) renderer frames =
  Some (clearBuffers renderer, frames).
Proof. reflexivity. Qed.

(** A turn without a key in which [drawCube] leaves 6285 coloured pixels
    or more on the 160 x 44 screen is undefined, and the loop with it. *)
Lemma gameLoop_crowded_turn fuel keys renderer frames renderer' :
  well_formed renderer ->
  width renderer = DEFAULT_WIDTH -> height renderer = DEFAULT_HEIGHT ->
  drawCube fuel (clearBuffers renderer) = Some renderer' ->
  (6285 <= Z.of_nat (colored renderer'))%Z ->
  gameLoop fuel (None :: keys) renderer frames = None.
Proof.
  intros Hwf Hw Hh Hrun Hmany.
  change (gameLoop fuel (None :: keys) renderer frames)
    with (drawn ← drawCube fuel (clearBuffers renderer);
          frame ← render drawn;
          gameLoop fuel keys
            (set_angles drawn (A drawn ⊕ to_float 0.05)
               (B drawn ⊕ to_float 0.05) (C drawn ⊕ to_float 0.01))
            (frames ++ [frame])).
  rewrite Hrun. simpl.
  by rewrite (crowded_frame_overruns renderer fuel renderer').
Qed.

(** Keys change no pixel: the frame that follows starts from cleared
    buffers whatever was pressed. *)
Lemma handleInput_buffers renderer key running :
  let renderer' := fst (handleInput renderer key running) in
  zBuffer renderer' = zBuffer renderer /\
  buffer renderer' = buffer renderer /\
  colorBuffer renderer' = colorBuffer renderer /\
  width renderer' = width renderer /\
  height renderer' = height renderer.
Proof.
  destruct key as [c|]; [|done].
  unfold handleInput.
  destruct c as [[] [] [] [] [] [] [] []]; done.
Qed.
